(** * art365: the manifest generator [gen_manifest.py]

    A shallow embedding of [parse_filename] and [generate_manifest] and of
    the parts of the Python library they call ([os.path.splitext],
    [re.match], [str.strip], [str.lower], [str.endswith], [int],
    [list.sort]).

    Conventions.
    - A Python [str] is a list of characters; a character is a code point in
      U+0000..U+00FF, carried by [ascii].  On that range the character
      classes below are Python's: [\d] is [0-9], [\s] and [str.strip] use
      [str.isspace], [.] is everything but the line feed.
    - A Python [int] is a [Z].
    - [print] and the [json.dump] to [manifest.json] are recorded, in order,
      in a list of [effect]s. *)

From Stdlib Require Import String.
From Stdlib Require Import List Ascii ZArith Lia Bool Arith.
From Stdlib Require Import Sorting.Sorted Sorting.Permutation.
Import ListNotations.

Set Implicit Arguments.
Local Open Scope Z_scope.

(** ** Characters and strings *)

Definition str := list ascii.

(** The string literals of the source are written [lit "..."]. *)
Definition lit (s : String.string) : str := String.list_ascii_of_string s.
Arguments lit s%_string.

Definition code (c : ascii) : nat := nat_of_ascii c.

(** [str.isdecimal] on one character: the class [\d]. *)
Definition isdecimal (c : ascii) : bool :=
  ((48 <=? code c) && (code c <=? 57))%nat.

(** [str.isspace] on one character: the class [\s], and what [strip] removes.
    TAB, LF, VT, FF, CR, the four separators FS GS RS US, SPACE, NEL and
    NO-BREAK SPACE. *)
Definition isspace (c : ascii) : bool :=
  (((9 <=? code c) && (code c <=? 13))
   || ((28 <=? code c) && (code c <=? 32))
   || (code c =? 133) || (code c =? 160))%nat.

(** [str.lower] on one character: A-Z and the capital letters of
    U+00C0..U+00DE (the multiplication sign U+00D7 apart) move by 32. *)
Definition lower_char (c : ascii) : ascii :=
  if (((65 <=? code c) && (code c <=? 90))
      || ((192 <=? code c) && (code c <=? 222) && negb (code c =? 215)))%nat
  then ascii_of_nat (code c + 32)
  else c.

Definition lower (s : str) : str := map lower_char s.

Definition str_eqb (a b : str) : bool :=
  if list_eq_dec ascii_dec a b then true else false.

(** [s.endswith(suffix)] *)
Definition endswith (s suffix : str) : bool :=
  str_eqb (skipn (length s - length suffix) s) suffix
  && (length suffix <=? length s)%nat.

(** [s.endswith((a, b, ...))] *)
Definition endswith_any (s : str) (suffixes : list str) : bool :=
  existsb (endswith s) suffixes.

(** [s.lstrip()], [s.rstrip()], [s.strip()] *)
Fixpoint lstrip (s : str) : str :=
  match s with
  | c :: s' => if isspace c then lstrip s' else s
  | [] => []
  end.

Definition rstrip (s : str) : str := rev (lstrip (rev s)).

Definition strip (s : str) : str := rstrip (lstrip s).

(** [int(s)] on a string of decimal digits. *)
Definition digit_value (c : ascii) : Z := Z.of_nat (code c - 48).

Definition int (s : str) : Z :=
  fold_left (fun acc c => 10 * acc + digit_value c) s 0.

(** The leading run of characters of a class, and what follows it. *)
Fixpoint take_while (p : ascii -> bool) (s : str) : str :=
  match s with
  | c :: s' => if p c then c :: take_while p s' else []
  | [] => []
  end.

Fixpoint drop_while (p : ascii -> bool) (s : str) : str :=
  match s with
  | c :: s' => if p c then drop_while p s' else s
  | [] => []
  end.

(** ** [os.path.splitext]

    [posixpath.splitext] is [genericpath._splitext(p, '/', None, '.')]:
    the extension starts at the last dot, provided that dot comes after the
    last separator and is not one of the dots the base name starts with. *)

(** [s.rfind(c)] for a one-character [c]: the highest index, or -1. *)
Fixpoint rfind_from (c : ascii) (s : str) (i : Z) (found : Z) : Z :=
  match s with
  | [] => found
  | x :: s' => rfind_from c s' (i + 1) (if Ascii.eqb x c then i else found)
  end.

Definition rfind (c : ascii) (s : str) : Z := rfind_from c s 0 (-1).

(** The [while filenameIndex < dotIndex] loop: [true] when it returns the
    split, [false] when it runs to its end. *)
Fixpoint finds_non_dot (p : str) (filenameIndex : nat) (remaining : nat) : bool :=
  match remaining with
  | O => false
  | S k =>
      match nth_error p filenameIndex with
      | Some c =>
          if negb (Ascii.eqb c ".") then true
          else finds_non_dot p (S filenameIndex) k
      | None => true
      end
  end.

Definition splitext (p : str) : str * str :=
  let sepIndex := rfind "/" p in
  let dotIndex := rfind "." p in
  if (sepIndex <? dotIndex)
     && finds_non_dot p (Z.to_nat (sepIndex + 1))
          (Z.to_nat (dotIndex - (sepIndex + 1)))
  then (firstn (Z.to_nat dotIndex) p, skipn (Z.to_nat dotIndex) p)
  else (p, []).

(** ** [re.match]: a backtracking matcher

    The patterns of the program are concatenations of literal characters,
    of repetitions of one character class, greedy or lazy, and of numbered
    groups.  [run] lists every way a pattern matches a prefix of the
    subject, in the order the backtracking engine tries them; [re.match]
    returns the first. *)

Inductive charclass : Type :=
| Digit       (* \d *)
| Space       (* \s *)
| AnyChar.    (* .  *)

Definition in_class (k : charclass) (c : ascii) : bool :=
  match k with
  | Digit => isdecimal c
  | Space => isspace c
  | AnyChar => negb (Ascii.eqb c "010")
  end.

Inductive regex : Type :=
| Lit (c : ascii)
| Rep (k : charclass) (lo : nat) (hi : option nat) (greedy : bool)
| Cat (r1 r2 : regex)
| Grp (n : nat) (r : regex).

(** The groups captured so far, the latest first. *)
Definition captures := list (nat * str).

(** What is left of [s] after 0, 1, 2, ... characters of the class. *)
Fixpoint runs (p : ascii -> bool) (s : str) : list str :=
  s :: match s with
       | c :: s' => if p c then runs p s' else []
       | [] => []
       end.

(** The ways a repetition can end, in the order they are tried: a greedy
    one takes all it can and gives back one character at a time, a lazy
    one takes [lo] and then one more at a time. *)
Definition rep_choices (k : charclass) (lo : nat) (hi : option nat)
    (greedy : bool) (s : str) : list str :=
  let all := runs (in_class k) s in
  let bounded := match hi with Some h => firstn (S h) all | None => all end in
  let allowed := skipn lo bounded in
  if greedy then rev allowed else allowed.

Fixpoint run (r : regex) (s : str) (c : captures) : list (str * captures) :=
  match r with
  | Lit a =>
      match s with
      | x :: s' => if Ascii.eqb x a then [(s', c)] else []
      | [] => []
      end
  | Rep k lo hi greedy => map (fun rest => (rest, c)) (rep_choices k lo hi greedy s)
  | Cat r1 r2 => flat_map (fun mc => run r2 (fst mc) (snd mc)) (run r1 s c)
  | Grp n r1 =>
      map (fun mc => (fst mc, (n, firstn (length s - length (fst mc)) s) :: snd mc))
          (run r1 s c)
  end.

(** [re.match(pattern, s)]: [None], or the groups of the match. *)
Definition re_match (pattern : regex) (s : str) : option captures :=
  option_map snd (hd_error (run pattern s [])).

(** [m.group(n)].  Every group of the three patterns below takes part in
    every match ([primary_match_shape], [fallback_match_shape],
    [re_match_number]), so no group is ever [None]. *)
Fixpoint group (m : captures) (n : nat) : str :=
  match m with
  | [] => []
  | (k, w) :: m' => if Nat.eqb k n then w else group m' n
  end.

Declare Scope regex_scope.
Delimit Scope regex_scope with re.
Infix ";;" := Cat (at level 61, right associativity) : regex_scope.

Definition plus (k : charclass) := Rep k 1 None true.        (* k+  *)
Definition star (k : charclass) := Rep k 0 None true.        (* k*  *)
Definition plus_lazy (k : charclass) := Rep k 1 None false.  (* k+? *)
Definition exactly (n : nat) (k : charclass) := Rep k n (Some n) true. (* k{n} *)

(** [(\d+)\.\s*(.+?)\s+by\s+(.+?),\s*(\d{4})] *)
Definition primary_pattern : regex :=
  (Grp 1 (plus Digit) ;; Lit "." ;; star Space ;; Grp 2 (plus_lazy AnyChar) ;;
   plus Space ;; Lit "b" ;; Lit "y" ;; plus Space ;; Grp 3 (plus_lazy AnyChar) ;;
   Lit "," ;; star Space ;; Grp 4 (exactly 4 Digit))%re.

(** [(\d+)\.\s*(.+?),\s*(\d{4})] *)
Definition fallback_pattern : regex :=
  (Grp 1 (plus Digit) ;; Lit "." ;; star Space ;; Grp 2 (plus_lazy AnyChar) ;;
   Lit "," ;; star Space ;; Grp 3 (exactly 4 Digit))%re.

(** [(\d+)] *)
Definition number_pattern : regex := Grp 1 (plus Digit).

(** ** Console output and the output file *)

Record ImageEntry : Type := {
  id : Z;
  filename : str;
  artist : option str;
  year : option Z;
  url : str;
  title : option str     (* [None]: the entry has no "title" key *)
}.

Record Manifest : Type := {
  version : str;
  total_images : Z;
  images : list ImageEntry
}.

(** One constructor for each [print] of the program. *)
Inductive message : Type :=
| Warning_could_not_parse (filename : str)
| Error_directory_not_found (images_dir : str)
| Make_sure_repo_root
| Found_images (count : Z) (images_dir : str)
| Parsing_filenames
| Progress_titled (number : Z) (title : option str) (artist : option str) (year : option Z)
| Progress_untitled (number : Z) (artist : option str) (year : option Z)
| Generated (output_file : str)
| Total_images (count : Z)
| Next_steps
| Hint_git_add
| Hint_git_commit
| Hint_git_push.

Inductive effect : Type :=
| Print (m : message)
| Dump (output_file : str) (content : Manifest).

(** ** [parse_filename] *)

Definition parsed : Type := option Z * option str * option str * option Z.

Definition parse_filename (filename : str) : list effect * parsed :=
  let name := fst (splitext filename) in
  match re_match primary_pattern name with
  | Some m =>
      let number := int (group m 1) in
      let title := strip (group m 2) in
      let artist := strip (group m 3) in
      let year := int (group m 4) in
      ([], (Some number, Some title, Some artist, Some year))
  | None =>
      match re_match fallback_pattern name with
      | Some m =>
          let number := int (group m 1) in
          let artist := strip (group m 2) in
          let year := int (group m 3) in
          ([], (Some number, None, Some artist, Some year))
      | None =>
          ([Print (Warning_could_not_parse filename)], (None, None, None, None))
      end
  end.

(** ** [generate_manifest] *)

(** What [os.path.exists] and [os.listdir] find at [images_dir]. *)
Inductive path_state : Type :=
| Missing
| Not_a_directory
| Directory (listing : list str).

Inductive completion : Type :=
| Returned
| Raised_NotADirectoryError.

(** [f.lower().endswith(('.jpg', '.jpeg', '.png'))] *)
Definition is_image_file (f : str) : bool :=
  endswith_any (lower f) [lit ".jpg"; lit ".jpeg"; lit ".png"].

(** [lambda x: int(re.match(r'(\d+)', x).group(1)) if re.match(r'(\d+)', x) else 999] *)
Definition sort_key (x : str) : Z :=
  match re_match number_pattern x with
  | Some m => int (group m 1)
  | None => 999
  end.

(** [list.sort(key=...)] is stable: elements with equal keys keep their
    order.  The stable sort of a list is unique; it is computed here by
    insertion from the right. *)
Section Sort.
Variable A : Type.
Variable key : A -> Z.

Fixpoint insert_by_key (x : A) (l : list A) : list A :=
  match l with
  | [] => [x]
  | y :: l' => if key x <=? key y then x :: l else y :: insert_by_key x l'
  end.

Fixpoint sort_by_key (l : list A) : list A :=
  match l with
  | [] => []
  | x :: l' => insert_by_key x (sort_by_key l')
  end.
End Sort.

Definition url_base : str :=
  lit "https://raw.githubusercontent.com/brandonbunt/art365/main/images/".

(** [if title:] holds for a string that is not empty. *)
Definition truthy (title : option str) : bool :=
  match title with
  | Some (_ :: _) => true
  | _ => false
  end.

(** One turn of [for filename in image_files]: the state is what has been
    printed so far and the manifest under construction. *)
Definition loop_body (st : list effect * Manifest) (filename : str)
    : list effect * Manifest :=
  let (out, manifest) := st in
  let '(warned, (number, title, artist, year)) := parse_filename filename in
  let out := out ++ warned in
  match number with
  | Some number =>
      let entry := {| id := number; filename := filename; artist := artist;
                      year := year; url := url_base ++ filename;
                      title := if truthy title then title else None |} in
      let manifest := {| version := version manifest;
                         total_images := total_images manifest;
                         images := images manifest ++ [entry] |} in
      let progress :=
        if truthy title then Progress_titled number title artist year
        else Progress_untitled number artist year in
      (out ++ [Print progress], manifest)
  | None => (out, manifest)
  end.

Definition output_file : str := lit "manifest.json".

(** [manifest = {"version": "1.0", "total_images": 0, "images": []}] *)
Definition initial_manifest : Manifest :=
  {| version := lit "1.0"; total_images := 0; images := [] |}.

Definition generate_manifest (images_dir : str) (at_images_dir : path_state)
    : list effect * completion :=
  match at_images_dir with
  | Missing =>
      ([Print (Error_directory_not_found images_dir); Print Make_sure_repo_root],
       Returned)
  | Not_a_directory => ([], Raised_NotADirectoryError)
  | Directory listing =>
      let manifest := initial_manifest in
      let image_files := filter is_image_file listing in
      let image_files := sort_by_key sort_key image_files in
      let out := [Print (Found_images (Z.of_nat (length image_files)) images_dir);
                  Print Parsing_filenames] in
      let (out, manifest) := fold_left loop_body image_files (out, manifest) in
      let manifest := {| version := version manifest;
                         total_images := Z.of_nat (length (images manifest));
                         images := images manifest |} in
      (out ++ [Dump output_file manifest;
               Print (Generated output_file);
               Print (Total_images (total_images manifest));
               Print Next_steps; Print Hint_git_add; Print Hint_git_commit;
               Print Hint_git_push],
       Returned)
  end.

(** The manifests written, and the messages printed, in order. *)
Definition dumps (out : list effect) : list Manifest :=
  flat_map (fun e => match e with Dump _ m => [m] | Print _ => [] end) out.

Definition prints (out : list effect) : list message :=
  flat_map (fun e => match e with Print m => [m] | Dump _ _ => [] end) out.

Definition dumped (run : list effect * completion) : list Manifest := dumps (fst run).

Definition printed (run : list effect * completion) : list message := prints (fst run).


(** ** What a match is

    [matches r w c c']: the pattern [r] matches exactly the string [w], and
    turns the captured groups [c] into [c']. *)

Definition within (lo : nat) (hi : option nat) (n : nat) : Prop :=
  (lo <= n)%nat /\ match hi with Some h => (n <= h)%nat | None => True end.

Inductive matches : regex -> str -> captures -> captures -> Prop :=
| M_Lit a c :
    matches (Lit a) [a] c c
| M_Rep k lo hi greedy w c :
    forallb (in_class k) w = true -> within lo hi (length w) ->
    matches (Rep k lo hi greedy) w c c
| M_Cat r1 r2 w1 w2 c c1 c2 :
    matches r1 w1 c c1 -> matches r2 w2 c1 c2 ->
    matches (Cat r1 r2) (w1 ++ w2) c c2
| M_Grp n r w c c1 :
    matches r w c c1 ->
    matches (Grp n r) w c ((n, w) :: c1).

(** The segments of a name the primary pattern matches:
    digits [.] spaces title spaces [by] spaces artist [,] spaces year. *)
Record primary_parts : Type := {
  p_number : str; p_gap : str; p_title : str; p_before_by : str;
  p_after_by : str; p_artist : str; p_after_comma : str; p_year : str;
  p_rest : str
}.

Definition all_of (k : charclass) (w : str) : Prop := forallb (in_class k) w = true.

Definition primary_shape (name : str) (m : captures) (p : primary_parts) : Prop :=
  name = p_number p ++ lit "." ++ p_gap p ++ p_title p ++ p_before_by p
         ++ lit "by" ++ p_after_by p ++ p_artist p ++ lit "," ++ p_after_comma p
         ++ p_year p ++ p_rest p
  /\ m = [(4%nat, p_year p); (3%nat, p_artist p); (2%nat, p_title p);
          (1%nat, p_number p)]
  /\ all_of Digit (p_number p) /\ p_number p <> []
  /\ all_of Space (p_gap p)
  /\ all_of AnyChar (p_title p) /\ p_title p <> []
  /\ all_of Space (p_before_by p) /\ p_before_by p <> []
  /\ all_of Space (p_after_by p) /\ p_after_by p <> []
  /\ all_of AnyChar (p_artist p) /\ p_artist p <> []
  /\ all_of Space (p_after_comma p)
  /\ all_of Digit (p_year p) /\ length (p_year p) = 4%nat.

(** The segments of a name the fallback pattern matches:
    digits [.] spaces artist [,] spaces year. *)
Record fallback_parts : Type := {
  f_number : str; f_gap : str; f_artist : str; f_after_comma : str;
  f_year : str; f_rest : str
}.

Definition fallback_shape (name : str) (m : captures) (p : fallback_parts) : Prop :=
  name = f_number p ++ lit "." ++ f_gap p ++ f_artist p ++ lit ","
         ++ f_after_comma p ++ f_year p ++ f_rest p
  /\ m = [(3%nat, f_year p); (2%nat, f_artist p); (1%nat, f_number p)]
  /\ all_of Digit (f_number p) /\ f_number p <> []
  /\ all_of Space (f_gap p)
  /\ all_of AnyChar (f_artist p) /\ f_artist p <> []
  /\ all_of Space (f_after_comma p)
  /\ all_of Digit (f_year p) /\ length (f_year p) = 4%nat.

(** The entries the loop appends, in order. *)
Definition entry_of (filename : str) : option ImageEntry :=
  match images (snd (loop_body ([], initial_manifest) filename)) with
  | [e] => Some e
  | _ => None
  end.

(** What one turn of the loop prints. *)
Definition loop_prints (filename : str) : list effect :=
  fst (loop_body ([], initial_manifest) filename).

Fixpoint entries_of (files : list str) : list ImageEntry :=
  match files with
  | [] => []
  | f :: files' =>
      match entry_of f with
      | Some e => e :: entries_of files'
      | None => entries_of files'
      end
  end.

(** The files in the order the loop takes them. *)
Definition processing_order (listing : list str) : list str :=
  sort_by_key sort_key (filter is_image_file listing).

(** The manifest of a listing: version, count and the entries. *)
Definition manifest_of (listing : list str) : Manifest :=
  {| version := lit "1.0";
     total_images := Z.of_nat (length (entries_of (processing_order listing)));
     images := entries_of (processing_order listing) |}.

(** The filename starts with a decimal digit. *)
Definition numbered (x : str) : bool :=
  match take_while isdecimal x with
  | [] => false
  | _ => true
  end.

(** The leading numeric prefix of a filename, as a number. *)
Definition leading_number (x : str) : Z := int (take_while isdecimal x).

(** The entries are in the order [rel] of the leading numbers of their
    filenames. *)
Definition ordered_by_prefix (rel : Z -> Z -> Prop) (es : list ImageEntry) : Prop :=
  StronglySorted
    (fun e1 e2 => rel (leading_number (filename e1)) (leading_number (filename e2))) es.

(** Every file without a leading number comes after all the numbered ones. *)
Definition unnumbered_last (files : list str) : Prop :=
  forall before f after g,
    files = before ++ f :: after -> numbered f = false -> In g after ->
    numbered g = false.

(** The year group comes right after a comma and one space, and no digit
    follows its four digits. *)
Definition year_after_comma_space (name : str) (m : captures) : Prop :=
  exists before after,
    name = before ++ lit ", " ++ group m 4 ++ after
    /\ length (group m 4) = 4%nat /\ take_while isdecimal after = [].

(** [sub] occurs in [s]. *)
Fixpoint starts_with (sub s : str) : bool :=
  match sub, s with
  | [], _ => true
  | a :: sub', b :: s' => Ascii.eqb a b && starts_with sub' s'
  | _ :: _, [] => false
  end.

Fixpoint occurs (sub s : str) : bool :=
  starts_with sub s
  || match s with
     | [] => false
     | _ :: s' => occurs sub s'
     end.

(** How [parse_filename] returns: from the primary pattern, from the
    fallback, or with the warning. *)
Inductive parse_case (filename : str) : list effect * parsed -> Prop :=
| Parse_primary m p :
    re_match primary_pattern (fst (splitext filename)) = Some m ->
    primary_shape (fst (splitext filename)) m p ->
    parse_case filename
      ([], (Some (int (p_number p)), Some (strip (p_title p)),
            Some (strip (p_artist p)), Some (int (p_year p))))
| Parse_fallback m p :
    re_match primary_pattern (fst (splitext filename)) = None ->
    re_match fallback_pattern (fst (splitext filename)) = Some m ->
    fallback_shape (fst (splitext filename)) m p ->
    parse_case filename
      ([], (Some (int (f_number p)), None,
            Some (strip (f_artist p)), Some (int (f_year p))))
| Parse_neither :
    re_match primary_pattern (fst (splitext filename)) = None ->
    re_match fallback_pattern (fst (splitext filename)) = None ->
    parse_case filename
      ([Print (Warning_could_not_parse filename)], (None, None, None, None)).

(** A list of numbers in strictly increasing order. *)
Fixpoint strictly_increasing (l : list Z) : bool :=
  match l with
  | a :: ((b :: _) as t) => (a <? b) && strictly_increasing t
  | _ => true
  end.

(** Files used as examples. *)
Definition the_sun : str :=
  lit "1. The Sun by Giuseppe Pellizza da Volpedo, 1904.jpg".

Definition artist_name : str := lit "42. Artist Name, 1872.jpg".

Definition blank_title : str := lit "1.  by B, 1904.jpg".

Definition cover : str := lit "cover.jpg".

Definition dawn_jpg : str := lit "1. Dawn by B, 1900.jpg".

Definition dawn_png : str := lit "1. Dawn by B, 1900.png".

Definition dusk : str := lit "1000. Dusk by A, 1900.jpg".

Definition crowded_listing : list str := [dusk; cover; dawn_png; dawn_jpg].

Definition twin_listing : list str := [dawn_jpg; dawn_png].

Definition no_space_year : str := lit "1. A by B,19045.jpg".

(** Kinds of console lines. *)
Definition is_warning (m : message) : bool :=
  match m with
  | Warning_could_not_parse _ => true
  | _ => false
  end.

Definition is_progress (m : message) : bool :=
  match m with
  | Progress_titled _ _ _ _ | Progress_untitled _ _ _ => true
  | _ => false
  end.

(** A string [strip] leaves as it is: no whitespace at either end. *)
Definition trimmed (s : str) : Prop := strip s = s.

(** The accepted extensions, as [endswith] receives them. *)
Definition image_extensions : list str := [lit ".jpg"; lit ".jpeg"; lit ".png"].

(** More example files. *)
Definition sun_png : str := lit "1. The Sun by Giuseppe Pellizza da Volpedo, 1904.PNG".

Definition notes : str := lit "notes.txt".

(** ** Strings *)

Lemma lstrip_spaces (s : str) : forallb isspace s = true -> lstrip s = [].
Proof.
  induction s as [|c s IH]; simpl; [reflexivity|].
  intros H. apply andb_true_iff in H as [Hc Hs].
  rewrite Hc. exact (IH Hs).
Qed.

Lemma strip_spaces (s : str) : forallb isspace s = true -> strip s = [].
Proof.
  intros H. unfold strip, rstrip. rewrite (lstrip_spaces _ H). reflexivity.
Qed.

Lemma take_drop_while (p : ascii -> bool) (s : str) :
  take_while p s ++ drop_while p s = s.
Proof.
  induction s as [|c s IH]; simpl; [reflexivity|].
  destruct (p c); simpl; [now rewrite IH | reflexivity].
Qed.

Lemma take_while_all (p : ascii -> bool) (s : str) :
  forallb p (take_while p s) = true.
Proof.
  induction s as [|c s IH]; simpl; [reflexivity|].
  destruct (p c) eqn:E; simpl; [now rewrite E | reflexivity].
Qed.

(** A run of the class that ends at a character outside it is the leading
    run. *)
Lemma take_while_stop (p : ascii -> bool) (w : str) (c : ascii) (rest : str) :
  forallb p w = true -> p c = false -> take_while p (w ++ c :: rest) = w.
Proof.
  induction w as [|x w IH]; simpl; intros Hw Hc.
  - now rewrite Hc.
  - apply andb_true_iff in Hw as [Hx Hw]. rewrite Hx. f_equal. now apply IH.
Qed.

Lemma firstn_consumed (w rest : str) :
  firstn (length (w ++ rest) - length rest) (w ++ rest) = w.
Proof.
  rewrite length_app, Nat.add_sub. rewrite firstn_app, Nat.sub_diag, firstn_all.
  simpl. now rewrite app_nil_r.
Qed.

Lemma int_snoc (s : str) (c : ascii) : int (s ++ [c]) = 10 * int s + digit_value c.
Proof. unfold int. rewrite fold_left_app. reflexivity. Qed.

Lemma digit_value_bounds (c : ascii) : isdecimal c = true -> 0 <= digit_value c <= 9.
Proof.
  unfold isdecimal, digit_value. intros H.
  apply andb_true_iff in H as [H1 H2].
  apply Nat.leb_le in H1, H2. lia.
Qed.

(** [int] of [n] decimal digits lies in [0, 10^n). *)
Lemma int_bounds (s : str) :
  forallb isdecimal s = true -> 0 <= int s < 10 ^ Z.of_nat (length s).
Proof.
  induction s as [|c s IH] using rev_ind; intros H.
  - unfold int. simpl. lia.
  - rewrite forallb_app in H. apply andb_true_iff in H as [Hs Hc].
    simpl in Hc. rewrite andb_true_r in Hc.
    specialize (IH Hs). pose proof (digit_value_bounds c Hc).
    rewrite int_snoc, length_app. simpl length.
    rewrite Nat2Z.inj_add, Z.pow_add_r by lia.
    change (10 ^ Z.of_nat 1) with 10. lia.
Qed.

(** ** [os.path.splitext] splits: nothing is lost *)

Lemma splitext_app (p : str) : fst (splitext p) ++ snd (splitext p) = p.
Proof.
  unfold splitext.
  destruct (_ && _); simpl; [apply firstn_skipn | apply app_nil_r].
Qed.

(** ** The repetitions *)

Lemma nth_error_runs (p : ascii -> bool) (s : str) (n : nat) (rest : str) :
  nth_error (runs p s) n = Some rest <->
  exists w, length w = n /\ s = w ++ rest /\ forallb p w = true.
Proof.
  revert n. induction s as [|c s IH]; intros n.
  - destruct n as [|n]; simpl.
    + split.
      * intros [= <-]. now exists [].
      * intros (w & Hl & Hs & _). destruct w; [|discriminate]. simpl in Hs. now subst.
    + split.
      * destruct n; discriminate.
      * intros (w & Hl & Hs & _). destruct w; discriminate.
  - destruct n as [|n]; simpl.
    + split.
      * intros [= <-]. now exists [].
      * intros (w & Hl & Hs & _). destruct w; [|discriminate]. simpl in Hs. now subst.
    + destruct (p c) eqn:Hc.
      * rewrite IH. split.
        -- intros (w & Hl & Hs & Hw). exists (c :: w). simpl. rewrite Hc, Hw.
           subst. auto.
        -- intros (w & Hl & Hs & Hw). destruct w as [|x w]; [discriminate|].
           simpl in *. injection Hs as -> ->. injection Hl as Hl.
           apply andb_true_iff in Hw as [_ Hw]. now exists w.
      * split.
        -- destruct n; discriminate.
        -- intros (w & Hl & Hs & Hw). destruct w as [|x w]; [discriminate|].
           simpl in *. injection Hs as -> ->. rewrite Hc in Hw. discriminate.
Qed.

Lemma In_skipn_nth (A : Type) (l : list A) (lo : nat) (x : A) :
  In x (skipn lo l) <-> exists n, (lo <= n)%nat /\ nth_error l n = Some x.
Proof.
  revert l. induction lo as [|lo IH]; intros l.
  - simpl. split.
    + intros H. apply In_nth_error in H as [n Hn]. exists n. split; [lia|auto].
    + intros (n & _ & Hn). eapply nth_error_In; eauto.
  - destruct l as [|y l]; simpl.
    + split; [tauto|]. intros (n & _ & Hn). destruct n; discriminate.
    + rewrite IH. split.
      * intros (n & Hle & Hn). exists (S n). split; [lia|auto].
      * intros (n & Hle & Hn). destruct n as [|n]; [lia|]. exists n. split; [lia|auto].
Qed.

Lemma nth_error_firstn_iff (A : Type) (l : list A) (h n : nat) (x : A) :
  nth_error (firstn h l) n = Some x <-> (n < h)%nat /\ nth_error l n = Some x.
Proof.
  revert l n. induction h as [|h IH]; intros l n.
  - simpl. split; [destruct n; discriminate | lia].
  - destruct l as [|y l]; simpl.
    + split; [destruct n; discriminate | intros [_ H]; destruct n; discriminate].
    + destruct n as [|n]; simpl.
      * split; [intros H; split; [lia|auto] | tauto].
      * rewrite IH. split; intros [H1 H2]; split; auto; lia.
Qed.

(** A repetition can end after any number of characters of its class that
    its bounds allow, and nowhere else. *)
Lemma In_rep_choices (k : charclass) (lo : nat) (hi : option nat) (greedy : bool)
    (s rest : str) :
  In rest (rep_choices k lo hi greedy s) <->
  exists w, s = w ++ rest /\ all_of k w /\ within lo hi (length w).
Proof.
  unfold rep_choices, all_of, within.
  assert (E : forall l : list str, In rest (if greedy then rev l else l) <-> In rest l).
  { intros l. destruct greedy; [symmetry; apply in_rev | tauto]. }
  rewrite E, In_skipn_nth. clear E.
  destruct hi as [h|].
  - split.
    + intros (n & Hlo & Hn). apply nth_error_firstn_iff in Hn as [Hh Hn].
      apply nth_error_runs in Hn as (w & Hl & Hs & Hw).
      exists w. subst. repeat split; auto; lia.
    + intros (w & Hs & Hw & Hlo & Hh). exists (length w). split; [auto|].
      apply nth_error_firstn_iff. split; [lia|].
      apply nth_error_runs. now exists w.
  - split.
    + intros (n & Hlo & Hn).
      apply nth_error_runs in Hn as (w & Hl & Hs & Hw).
      exists w. subst. repeat split; auto.
    + intros (w & Hs & Hw & Hlo & _). exists (length w). split; [auto|].
      apply nth_error_runs. now exists w.
Qed.

(** ** The matcher finds the matches, all of them *)

Lemma run_sound (r : regex) (s : str) (c : captures) (rest : str) (c' : captures) :
  In (rest, c') (run r s c) -> exists w, s = w ++ rest /\ matches r w c c'.
Proof.
  revert s c rest c'. induction r as [a|k lo hi g|r1 IH1 r2 IH2|n r IH];
    intros s c rest c'; simpl.
  - destruct s as [|x s]; [intros []|].
    destruct (Ascii.eqb_spec x a) as [->|_]; simpl; [|intros []].
    intros [[= <- <-]|[]]. exists [a]. split; [reflexivity|constructor].
  - rewrite in_map_iff. intros (rest' & [= -> ->] & Hin).
    apply In_rep_choices in Hin as (w & Hs & Hw & Hb).
    exists w. split; [auto|]. now constructor.
  - rewrite in_flat_map. intros ([mid c1] & H1 & H2). simpl in H2.
    apply IH1 in H1 as (w1 & -> & M1). apply IH2 in H2 as (w2 & -> & M2).
    exists (w1 ++ w2). split; [now rewrite app_assoc|]. econstructor; eauto.
  - rewrite in_map_iff. intros ([rest' c1] & [= -> <-] & Hin). simpl.
    apply IH in Hin as (w & -> & M). exists w. split; [reflexivity|].
    rewrite firstn_consumed. now constructor.
Qed.

Lemma run_complete (r : regex) (w : str) (c c' : captures) :
  matches r w c c' -> forall rest, In (rest, c') (run r (w ++ rest) c).
Proof.
  induction 1 as [a c|k lo hi g w c Hw Hb|r1 r2 w1 w2 c c1 c2 _ IH1 _ IH2
                 |n r w c c1 _ IH]; intros rest; simpl.
  - rewrite Ascii.eqb_refl. now left.
  - apply in_map_iff. exists rest. split; [reflexivity|].
    apply In_rep_choices. now exists w.
  - apply in_flat_map. exists (w2 ++ rest, c1). split.
    + rewrite <- app_assoc. apply IH1.
    + simpl. apply IH2.
  - apply in_map_iff. exists (rest, c1). simpl. split; [|apply IH].
    now rewrite firstn_consumed.
Qed.

(** [re.match] succeeds exactly when the pattern matches a prefix, and its
    groups are those of one such match. *)
Lemma re_match_Some (r : regex) (s : str) (m : captures) :
  re_match r s = Some m -> exists w rest, s = w ++ rest /\ matches r w [] m.
Proof.
  unfold re_match. destruct (run r s []) as [|[rest c] l] eqn:E; [discriminate|].
  simpl. intros [= <-].
  destruct (run_sound r s [] rest c) as (w & Hs & M); [rewrite E; now left|].
  now exists w, rest.
Qed.

Lemma re_match_None (r : regex) (s : str) :
  re_match r s = None <-> forall w rest m, s = w ++ rest -> ~ matches r w [] m.
Proof.
  unfold re_match. split.
  - destruct (run r s []) as [|x l] eqn:E; [|discriminate].
    intros _ w rest m -> M. pose proof (run_complete M rest) as Hin.
    rewrite E in Hin. exact Hin.
  - intros H. destruct (run r s []) as [|[rest c] l] eqn:E; [reflexivity|].
    exfalso. destruct (run_sound r s [] rest c) as (w & Hs & M); [rewrite E; now left|].
    exact (H w rest c Hs M).
Qed.

(** Inversion of [matches], pattern by pattern. *)
Lemma matches_Lit a w c c' : matches (Lit a) w c c' -> w = [a] /\ c' = c.
Proof. inversion 1; auto. Qed.

Lemma matches_Rep k lo hi g w c c' :
  matches (Rep k lo hi g) w c c' -> all_of k w /\ within lo hi (length w) /\ c' = c.
Proof. inversion 1; auto. Qed.

Lemma matches_Cat r1 r2 w c c' :
  matches (Cat r1 r2) w c c' ->
  exists w1 w2 c1, w = w1 ++ w2 /\ matches r1 w1 c c1 /\ matches r2 w2 c1 c'.
Proof. inversion 1; subst; eauto 7. Qed.

Lemma matches_Grp n r w c c' :
  matches (Grp n r) w c c' -> exists c1, matches r w c c1 /\ c' = (n, w) :: c1.
Proof. inversion 1; subst; eauto. Qed.

Ltac invert_matches :=
  repeat match goal with
  | H : matches (Cat _ _) _ _ _ |- _ =>
      apply matches_Cat in H as (? & ? & ? & ? & ? & ?)
  | H : matches (Grp _ _) _ _ _ |- _ => apply matches_Grp in H as (? & ? & ?)
  | H : matches (Lit _) _ _ _ |- _ => apply matches_Lit in H as [? ?]
  | H : matches (plus _) _ _ _ |- _ => apply matches_Rep in H as (? & [? _] & ?)
  | H : matches (plus_lazy _) _ _ _ |- _ => apply matches_Rep in H as (? & [? _] & ?)
  | H : matches (star _) _ _ _ |- _ => apply matches_Rep in H as (? & _ & ?)
  | H : matches (exactly _ _) _ _ _ |- _ => apply matches_Rep in H as (? & [? ?] & ?)
  end.

Lemma nonempty_length (w : str) : (1 <= length w)%nat -> w <> [].
Proof. destruct w; simpl; [lia | discriminate]. Qed.

Lemma primary_match_shape (name : str) (m : captures) :
  re_match primary_pattern name = Some m -> exists p, primary_shape name m p.
Proof.
  intros H. apply re_match_Some in H as (w & rest & -> & M).
  unfold primary_pattern in M. invert_matches. subst.
  match goal with
  | |- exists _, primary_shape
         ((?d ++ _ ++ ?g ++ ?t ++ ?b ++ _ ++ _ ++ ?a ++ ?ar ++ _ ++ ?ac ++ ?y) ++ ?r) _ _ =>
      exists {| p_number := d; p_gap := g; p_title := t; p_before_by := b;
                p_after_by := a; p_artist := ar; p_after_comma := ac;
                p_year := y; p_rest := r |}
  end.
  unfold primary_shape; simpl.
  repeat split; auto using nonempty_length; try lia.
  repeat (rewrite <- app_assoc; simpl). reflexivity.
Qed.

Lemma fallback_match_shape (name : str) (m : captures) :
  re_match fallback_pattern name = Some m -> exists p, fallback_shape name m p.
Proof.
  intros H. apply re_match_Some in H as (w & rest & -> & M).
  unfold fallback_pattern in M. invert_matches. subst.
  match goal with
  | |- exists _, fallback_shape ((?d ++ _ ++ ?g ++ ?ar ++ _ ++ ?ac ++ ?y) ++ ?r) _ _ =>
      exists {| f_number := d; f_gap := g; f_artist := ar; f_after_comma := ac;
                f_year := y; f_rest := r |}
  end.
  unfold fallback_shape; simpl.
  repeat split; auto using nonempty_length; try lia.
  repeat (rewrite <- app_assoc; simpl). reflexivity.
Qed.

(** ** The leading number *)

Lemma hd_error_rev_runs (p : ascii -> bool) (s : str) :
  hd_error (rev (runs p s)) = Some (drop_while p s).
Proof.
  induction s as [|c s IH]; [reflexivity|].
  simpl. destruct (p c); [|reflexivity].
  destruct (rev (runs p s)) as [|x l]; [discriminate|]. exact IH.
Qed.

(** A greedy [\d+] at the start of the subject takes the whole leading run
    of digits. *)
Lemma re_match_number (x : str) :
  re_match number_pattern x
  = match take_while isdecimal x with
    | [] => None
    | d => Some [(1%nat, d)]
    end.
Proof.
  unfold re_match, number_pattern, plus. simpl run. unfold rep_choices.
  change (in_class Digit) with isdecimal.
  destruct x as [|c s]; [reflexivity|].
  cbn [runs skipn take_while]. destruct (isdecimal c) eqn:Hc; [|reflexivity].
  pose proof (hd_error_rev_runs isdecimal s) as Hhd.
  destruct (rev (runs isdecimal s)) as [|rest l]; [discriminate|].
  injection Hhd as ->. cbn [map hd_error option_map fst snd].
  do 3 f_equal.
  pose proof (take_drop_while isdecimal (c :: s)) as E.
  cbn [take_while drop_while] in E. rewrite Hc in E.
  rewrite <- E at 1 2. now rewrite firstn_consumed.
Qed.

Lemma sort_key_leading_digits (x : str) :
  sort_key x = match take_while isdecimal x with
               | [] => 999
               | d => int d
               end.
Proof.
  unfold sort_key. rewrite re_match_number.
  destruct (take_while isdecimal x); reflexivity.
Qed.

Lemma sort_key_numbered (x : str) :
  numbered x = true -> sort_key x = int (take_while isdecimal x).
Proof.
  unfold numbered. rewrite sort_key_leading_digits.
  destruct (take_while isdecimal x); [discriminate | reflexivity].
Qed.

Lemma sort_key_unnumbered (x : str) : numbered x = false -> sort_key x = 999.
Proof.
  unfold numbered. rewrite sort_key_leading_digits.
  destruct (take_while isdecimal x); [reflexivity | discriminate].
Qed.

(** A name that starts with digits and a dot: the digits are the leading
    run of the name, and of any string the name starts. *)
Lemma leading_digits_before_dot (d tail : str) :
  all_of Digit d -> d <> [] ->
  take_while isdecimal (d ++ lit "." ++ tail) = d.
Proof.
  intros Hd _. apply take_while_stop; [exact Hd | reflexivity].
Qed.

(** ** [parse_filename], case by case *)

Lemma parse_filename_cases (filename : str) :
  parse_case filename (parse_filename filename).
Proof.
  unfold parse_filename.
  destruct (re_match primary_pattern _) as [m|] eqn:E1.
  - destruct (primary_match_shape _ E1) as [p Hp].
    pose proof Hp as (_ & -> & _). simpl. eapply Parse_primary; eauto.
  - destruct (re_match fallback_pattern _) as [m|] eqn:E2.
    + destruct (fallback_match_shape _ E2) as [p Hp].
      pose proof Hp as (_ & -> & _). simpl. eapply Parse_fallback; eauto.
    + now apply Parse_neither.
Qed.

(** The number [parse_filename] returns is the sort key of the file, and
    the file is a numbered one. *)
Lemma parse_number_is_sort_key (filename : str) (number : Z) title artist year :
  snd (parse_filename filename) = (Some number, title, artist, year) ->
  numbered filename = true /\ number = int (take_while isdecimal filename)
  /\ sort_key filename = number.
Proof.
  intros H.
  assert (L : exists d tail, filename = d ++ lit "." ++ tail
                             /\ all_of Digit d /\ d <> [] /\ number = int d).
  { pose proof (splitext_app filename) as S.
    destruct (parse_filename_cases filename) as [m p _ Hp|m p _ _ Hp|_ _];
      simpl in H; [| |discriminate]; injection H as <- _ _ _.
    - destruct Hp as (Hn & _ & Hd & Hne & _).
      exists (p_number p). eexists. rewrite <- S at 1. rewrite Hn.
      repeat rewrite <- app_assoc. repeat split; eauto.
    - destruct Hp as (Hn & _ & Hd & Hne & _).
      exists (f_number p). eexists. rewrite <- S at 1. rewrite Hn.
      repeat rewrite <- app_assoc. repeat split; eauto. }
  destruct L as (d & tail & -> & Hd & Hne & ->).
  assert (N : numbered (d ++ lit "." ++ tail) = true).
  { unfold numbered. rewrite leading_digits_before_dot by assumption.
    destruct d; [congruence | reflexivity]. }
  split; [exact N|]. rewrite (sort_key_numbered _ N).
  rewrite leading_digits_before_dot by assumption. auto.
Qed.

(** ** [list.sort(key=...)]: sorted, a permutation, stable *)

Section SortFacts.
Variable A : Type.
Variable key : A -> Z.

Let le_key (x y : A) : Prop := key x <= key y.

Lemma insert_by_key_perm (x : A) (l : list A) :
  Permutation (insert_by_key key x l) (x :: l).
Proof.
  induction l as [|y l IH]; simpl; [reflexivity|].
  destruct (key x <=? key y); [reflexivity|].
  rewrite IH. apply perm_swap.
Qed.

Lemma sort_by_key_perm (l : list A) : Permutation (sort_by_key key l) l.
Proof.
  induction l as [|x l IH]; simpl; [reflexivity|].
  rewrite insert_by_key_perm. now constructor.
Qed.

Lemma insert_by_key_sorted (x : A) (l : list A) :
  StronglySorted le_key l -> StronglySorted le_key (insert_by_key key x l).
Proof.
  induction 1 as [|y l Hl IH Hy]; simpl.
  - repeat constructor.
  - destruct (key x <=? key y) eqn:E.
    + apply Z.leb_le in E. constructor; [now constructor|].
      constructor; [exact E|].
      eapply Forall_impl; [|exact Hy]. unfold le_key. intros; lia.
    + apply Z.leb_gt in E. constructor; [exact IH|].
      eapply Permutation_Forall; [symmetry; apply insert_by_key_perm|].
      constructor; [unfold le_key; lia | exact Hy].
Qed.

Lemma sort_by_key_sorted (l : list A) : StronglySorted le_key (sort_by_key key l).
Proof.
  induction l as [|x l IH]; simpl; [constructor | now apply insert_by_key_sorted].
Qed.

(** The elements with a given key come out in the order they went in. *)
Lemma insert_by_key_stable (k : Z) (x : A) (l : list A) :
  filter (fun y => key y =? k) (insert_by_key key x l)
  = filter (fun y => key y =? k) (x :: l).
Proof.
  induction l as [|y l IH]; [reflexivity|].
  cbn [insert_by_key]. destruct (key x <=? key y) eqn:E; [reflexivity|].
  apply Z.leb_gt in E. cbn [filter] in *. rewrite IH.
  destruct (Z.eqb_spec (key x) k), (Z.eqb_spec (key y) k); try reflexivity. lia.
Qed.

Lemma sort_by_key_stable (k : Z) (l : list A) :
  filter (fun y => key y =? k) (sort_by_key key l) = filter (fun y => key y =? k) l.
Proof.
  induction l as [|x l IH]; [reflexivity|].
  cbn [sort_by_key]. rewrite insert_by_key_stable. cbn [filter]. now rewrite IH.
Qed.
End SortFacts.

Lemma processing_order_sorted (listing : list str) :
  StronglySorted (fun f g => sort_key f <= sort_key g) (processing_order listing).
Proof. apply sort_by_key_sorted. Qed.

Lemma In_processing_order (listing : list str) (f : str) :
  In f (processing_order listing) <-> In f listing /\ is_image_file f = true.
Proof.
  unfold processing_order. rewrite <- filter_In. split; apply Permutation_in.
  - apply sort_by_key_perm.
  - symmetry. apply sort_by_key_perm.
Qed.

(** ** The loop *)

Lemma entry_of_parse (filename : str) :
  entry_of filename
  = match snd (parse_filename filename) with
    | (Some number, title, artist, year) =>
        Some {| id := number; filename := filename; artist := artist; year := year;
                url := url_base ++ filename;
                title := if truthy title then title else None |}
    | _ => None
    end.
Proof.
  unfold entry_of, loop_body.
  destruct (parse_filename filename) as [warned [[[[number|] title] artist] year]];
    reflexivity.
Qed.

Lemma entry_of_filename (f : str) (e : ImageEntry) : entry_of f = Some e -> filename e = f.
Proof.
  rewrite entry_of_parse.
  destruct (snd (parse_filename f)) as [[[[number|] title] artist] year];
    [|discriminate].
  now intros [= <-].
Qed.

Lemma loop_body_step (st : list effect * Manifest) (f : str) :
  loop_body st f
  = (fst st ++ loop_prints f,
     {| version := version (snd st); total_images := total_images (snd st);
        images := images (snd st) ++ entries_of [f] |}).
Proof.
  unfold entries_of, entry_of, loop_prints, loop_body.
  destruct st as [out [v t im]].
  destruct (parse_filename f) as [warned [[[[number|] title] artist] year]]; simpl.
  - now rewrite app_assoc.
  - now rewrite app_nil_r.
Qed.

Lemma entries_of_cons (f : str) (files : list str) :
  entries_of (f :: files) = entries_of [f] ++ entries_of files.
Proof. simpl. destruct (entry_of f); reflexivity. Qed.

Lemma fold_loop_body (files : list str) (st : list effect * Manifest) :
  fold_left loop_body files st
  = (fst st ++ flat_map loop_prints files,
     {| version := version (snd st); total_images := total_images (snd st);
        images := images (snd st) ++ entries_of files |}).
Proof.
  revert st. induction files as [|f files IH]; intros [out [v t im]].
  - simpl. now rewrite !app_nil_r.
  - cbn [fold_left]. rewrite IH, loop_body_step, (entries_of_cons f files).
    cbn [fst snd version total_images images flat_map].
    now rewrite <- !app_assoc.
Qed.

Lemma In_entries_of (files : list str) (e : ImageEntry) :
  In e (entries_of files) <-> exists f, In f files /\ entry_of f = Some e.
Proof.
  induction files as [|f files IH]; simpl.
  - split; [tauto | intros (f & [] & _)].
  - destruct (entry_of f) as [e'|] eqn:E; simpl; rewrite IH; split.
    + intros [->|(g & Hg & He)]; eauto.
    + intros (g & [->|Hg] & He); [left; congruence | eauto].
    + intros (g & Hg & He); eauto.
    + intros (g & [->|Hg] & He); [congruence | eauto].
Qed.

(** The loop prints, and nothing else. *)
Lemma dumps_loop_prints (f : str) : dumps (loop_prints f) = [].
Proof.
  unfold loop_prints, loop_body.
  destruct (parse_filename_cases f); simpl; try reflexivity.
Qed.

Lemma dumps_app (a b : list effect) : dumps (a ++ b) = dumps a ++ dumps b.
Proof. apply flat_map_app. Qed.

Lemma prints_app (a b : list effect) : prints (a ++ b) = prints a ++ prints b.
Proof. apply flat_map_app. Qed.

Lemma dumps_flat_loop_prints (files : list str) :
  dumps (flat_map loop_prints files) = [].
Proof.
  induction files as [|f files IH]; [reflexivity|].
  simpl. now rewrite dumps_app, dumps_loop_prints, IH.
Qed.

(** The run on a directory, in closed form. *)
Lemma generate_manifest_directory (images_dir : str) (listing : list str) :
  generate_manifest images_dir (Directory listing)
  = let files := processing_order listing in
    let manifest := {| version := lit "1.0";
                       total_images := Z.of_nat (length (entries_of files));
                       images := entries_of files |} in
    ([Print (Found_images (Z.of_nat (length files)) images_dir);
      Print Parsing_filenames]
     ++ flat_map loop_prints files
     ++ [Dump output_file manifest; Print (Generated output_file);
         Print (Total_images (total_images manifest));
         Print Next_steps; Print Hint_git_add; Print Hint_git_commit;
         Print Hint_git_push],
     Returned).
Proof.
  unfold generate_manifest. fold (processing_order listing).
  rewrite fold_loop_body. cbn [fst snd version total_images images initial_manifest app].
  reflexivity.
Qed.

Lemma dumped_directory (images_dir : str) (listing : list str) :
  dumped (generate_manifest images_dir (Directory listing)) = [manifest_of listing].
Proof.
  rewrite generate_manifest_directory. unfold dumped. cbn [fst].
  rewrite !dumps_app, dumps_flat_loop_prints. reflexivity.
Qed.

(** ** What the entries are *)

Lemma entry_of_number (f : str) (e : ImageEntry) :
  entry_of f = Some e ->
  filename e = f /\ numbered f = true /\ id e = leading_number f
  /\ sort_key f = leading_number f.
Proof.
  intros H. pose proof (entry_of_filename _ H) as Hf.
  rewrite entry_of_parse in H.
  destruct (snd (parse_filename f)) as [[[[number|] t] a] y] eqn:E; [|discriminate].
  apply parse_number_is_sort_key in E as (Hn & Hnum & Hk).
  injection H as <-. simpl. unfold leading_number. repeat split; congruence.
Qed.

Lemma StronglySorted_middle (A : Type) (R : A -> A -> Prop) (l1 : list A) (x : A)
    (l2 : list A) :
  StronglySorted R (l1 ++ x :: l2) -> Forall (fun y => R y x) l1 /\ Forall (R x) l2.
Proof.
  induction l1 as [|y l1 IH]; simpl; intros H; inversion H as [|? ? Hs Hall]; subst.
  - split; [constructor | exact Hall].
  - destruct (IH Hs) as [H1 H2]. split; [|exact H2].
    constructor; [|exact H1].
    rewrite Forall_forall in Hall. apply Hall, in_elt.
Qed.

(** Taking the entries keeps the order of the files. *)
Lemma entries_of_ordered (files : list str) :
  StronglySorted (fun f g => sort_key f <= sort_key g) files ->
  ordered_by_prefix Z.le (entries_of files).
Proof.
  unfold ordered_by_prefix.
  induction 1 as [|f files Hs IH Hall]; simpl; [constructor|].
  destruct (entry_of f) as [e|] eqn:E; [|exact IH].
  constructor; [exact IH|].
  apply Forall_forall. intros e' He'.
  apply In_entries_of in He' as (g & Hg & Eg).
  rewrite Forall_forall in Hall. specialize (Hall g Hg).
  apply entry_of_number in E as (-> & _ & _ & <-).
  apply entry_of_number in Eg as (-> & _ & _ & <-). exact Hall.
Qed.

Lemma ordered_strictly_increasing (es : list ImageEntry) :
  ordered_by_prefix Z.lt es ->
  strictly_increasing (map (fun e => leading_number (filename e)) es) = true.
Proof.
  unfold ordered_by_prefix.
  induction 1 as [|e es Hs IH Hall]; [reflexivity|].
  destruct es as [|e' es]; [reflexivity|].
  cbn [map strictly_increasing] in *. rewrite IH, andb_true_r.
  inversion Hall; subst. now apply Z.ltb_lt.
Qed.

Lemma NoDup_ids (files : list str) :
  NoDup (map leading_number (filter numbered files)) ->
  NoDup (map id (entries_of files)).
Proof.
  induction files as [|f files IH]; simpl; [constructor|].
  destruct (entry_of f) as [e|] eqn:E.
  - destruct (entry_of_number _ E) as (_ & -> & Hid & _). simpl.
    intros H. inversion H as [|? ? Hnot Hnd]; subst.
    constructor; [|auto].
    intros Hin. apply Hnot. rewrite Hid in Hin.
    apply in_map_iff in Hin as (e' & He' & Hin).
    apply In_entries_of in Hin as (g & Hg & Eg).
    destruct (entry_of_number _ Eg) as (_ & Hnum & Hid' & _).
    apply in_map_iff. exists g. split; [congruence|].
    apply filter_In. auto.
  - destruct (numbered f); [|exact IH].
    simpl. intros H. inversion H; auto.
Qed.

Lemma filter_numbered_perm (l l' : list str) :
  Permutation l l' ->
  Permutation (map leading_number (filter numbered l))
              (map leading_number (filter numbered l')).
Proof.
  induction 1 as [|x l l' _ IH|x y l|l l' l'' _ IH1 _ IH2]; simpl.
  - reflexivity.
  - destruct (numbered x); simpl; [now constructor | exact IH].
  - destruct (numbered x), (numbered y); simpl; try reflexivity. apply perm_swap.
  - now rewrite IH1.
Qed.

Lemma occurs_app (sub before after : str) : occurs sub (before ++ sub ++ after) = true.
Proof.
  induction before as [|c before IH].
  - assert (P : starts_with sub (sub ++ after) = true).
    { induction sub as [|a sub IHs]; [reflexivity|].
      simpl. now rewrite Ascii.eqb_refl, IHs. }
    simpl. destruct (sub ++ after); simpl; rewrite P; reflexivity.
  - simpl. rewrite IH. apply orb_true_r.
Qed.

(** ** The claims *)

(** C4.  Parsing ["1. The Sun by Giuseppe Pellizza da Volpedo, 1904.jpg"]
    gives number 1, title ["The Sun"], artist ["Giuseppe Pellizza da
    Volpedo"] and year 1904, and the manifest of a directory that holds this
    file has one entry: id 1, the whole filename, that artist, that year,
    that title, and the url made of the fixed base and the filename. *)
Theorem the_sun_entry :
  parse_filename (lit "1. The Sun by Giuseppe Pellizza da Volpedo, 1904.jpg")
  = ([], (Some 1, Some (lit "The Sun"), Some (lit "Giuseppe Pellizza da Volpedo"),
          Some 1904))
  /\ dumped (generate_manifest (lit "images")
       (Directory [lit "1. The Sun by Giuseppe Pellizza da Volpedo, 1904.jpg"]))
     = [ {| version := lit "1.0";
            total_images := 1;
            images :=
              [ {| id := 1;
                   filename := lit "1. The Sun by Giuseppe Pellizza da Volpedo, 1904.jpg";
                   artist := Some (lit "Giuseppe Pellizza da Volpedo");
                   year := Some 1904;
                   url := lit "https://raw.githubusercontent.com/brandonbunt/art365/main/images/1. The Sun by Giuseppe Pellizza da Volpedo, 1904.jpg";
                   title := Some (lit "The Sun") |} ] |} ].
Proof. split; vm_compute; reflexivity. Qed.

(** C7.  When the directory does not exist, [generate_manifest] prints the
    error message and the hint, returns, and does nothing else: no manifest
    is written. *)
Theorem missing_directory_writes_nothing (images_dir : str) :
  generate_manifest images_dir Missing
  = ([Print (Error_directory_not_found images_dir); Print Make_sure_repo_root],
     Returned)
  /\ dumped (generate_manifest images_dir Missing) = []
  /\ printed (generate_manifest images_dir Missing)
     = [Error_directory_not_found images_dir; Make_sure_repo_root].
Proof. repeat split. Qed.

(** C8.  In every manifest that [generate_manifest] writes, [total_images]
    is the length of [images]. *)
Theorem total_images_is_length (images_dir : str) (at_images_dir : path_state)
    (m : Manifest) :
  In m (dumped (generate_manifest images_dir at_images_dir)) ->
  total_images m = Z.of_nat (length (images m)).
Proof.
  destruct at_images_dir as [| |listing].
  - intros [].
  - intros [].
  - rewrite dumped_directory. intros [<-|[]]. reflexivity.
Qed.

Lemma total_images_is_length_witness :
  let m := {| version := lit "1.0"; total_images := 1;
              images := [ {| id := 42; filename := artist_name;
                             artist := Some (lit "Artist Name"); year := Some 1872;
                             url := url_base ++ artist_name; title := None |} ] |} in
  In m (dumped (generate_manifest (lit "images") (Directory [cover; artist_name])))
  /\ total_images m = Z.of_nat (length (images m)).
Proof.
  intros m.
  assert (H : In m (dumped (generate_manifest (lit "images")
                              (Directory [cover; artist_name])))).
  { vm_compute. left. reflexivity. }
  split; [exact H|].
  exact (total_images_is_length (lit "images") (Directory [cover; artist_name]) m H).
Defined.

(** C9.  When [parse_filename] succeeds, by either pattern, the number it
    returns, which becomes the entry's id, is the integer value of the
    leading run of digits of the filename, and it is the key the file is
    sorted by. *)
Theorem id_is_sort_key (f : str) (number : Z) (title artist : option str)
    (year : option Z) :
  snd (parse_filename f) = (Some number, title, artist, year) ->
  numbered f = true
  /\ number = leading_number f
  /\ sort_key f = number
  /\ exists e, entry_of f = Some e /\ id e = number.
Proof.
  intros H. destruct (parse_number_is_sort_key _ H) as (Hn & Hl & Hk).
  repeat split; auto.
  rewrite entry_of_parse, H. eexists. split; reflexivity.
Qed.

Lemma id_is_sort_key_witness :
  snd (parse_filename artist_name)
  = (Some 42, None, Some (lit "Artist Name"), Some 1872)
  /\ sort_key artist_name = 42.
Proof.
  assert (H : snd (parse_filename artist_name)
              = (Some 42, None, Some (lit "Artist Name"), Some 1872)).
  { vm_compute. reflexivity. }
  split; [exact H|].
  exact (proj1 (proj2 (proj2 (id_is_sort_key artist_name H)))).
Defined.

(** C5.  The fallback pattern decides the result only when the primary
    pattern fails: if the primary matches, the four values come from its
    groups, and a result without a title is one the primary did not match.
    A file that only the fallback matches gets an entry with no title, and
    so has its entry in every manifest. *)
Theorem fallback_only_after_primary (f : str) :
  (forall m, re_match primary_pattern (fst (splitext f)) = Some m ->
     parse_filename f
     = ([], (Some (int (group m 1)), Some (strip (group m 2)),
             Some (strip (group m 3)), Some (int (group m 4)))))
  /\ (forall number artist year,
        snd (parse_filename f) = (Some number, None, artist, year) ->
        re_match primary_pattern (fst (splitext f)) = None)
  /\ (forall m, re_match primary_pattern (fst (splitext f)) = None ->
        re_match fallback_pattern (fst (splitext f)) = Some m ->
        parse_filename f
        = ([], (Some (int (group m 1)), None, Some (strip (group m 2)),
                Some (int (group m 3))))
        /\ exists e, entry_of f = Some e /\ title e = None)
  /\ (forall images_dir listing m e,
        In m (dumped (generate_manifest images_dir (Directory listing))) ->
        In e (images m) -> filename e = f ->
        re_match primary_pattern (fst (splitext f)) = None ->
        title e = None).
Proof.
  split; [|split; [|split]]; cycle 3.
  - intros images_dir listing m e Hm He Hf H1.
    rewrite dumped_directory in Hm. destruct Hm as [<-|[]].
    apply In_entries_of in He as (g & _ & Eg).
    pose proof (entry_of_filename _ Eg) as Hg. rewrite Hf in Hg. subst g.
    rewrite entry_of_parse in Eg. unfold parse_filename in Eg. rewrite H1 in Eg.
    destruct (re_match fallback_pattern _); [|discriminate].
    cbn in Eg. now injection Eg as <-.
  - intros m H. unfold parse_filename. now rewrite H.
  - intros number artist year. unfold parse_filename.
    destruct (re_match primary_pattern _); [discriminate | reflexivity].
  - intros m H1 H2.
    assert (P : parse_filename f
                = ([], (Some (int (group m 1)), None, Some (strip (group m 2)),
                        Some (int (group m 3))))).
    { unfold parse_filename. now rewrite H1, H2. }
    split; [exact P|]. rewrite entry_of_parse, P. eexists. split; reflexivity.
Qed.

Lemma fallback_only_after_primary_witness :
  (re_match primary_pattern (fst (splitext artist_name)) = None
   /\ re_match fallback_pattern (fst (splitext artist_name))
      = Some [(3%nat, lit "1872"); (2%nat, lit "Artist Name"); (1%nat, lit "42")])
  /\ exists e, entry_of artist_name = Some e /\ title e = None.
Proof.
  assert (H1 : re_match primary_pattern (fst (splitext artist_name)) = None).
  { vm_compute. reflexivity. }
  assert (H2 : re_match fallback_pattern (fst (splitext artist_name))
               = Some [(3%nat, lit "1872"); (2%nat, lit "Artist Name"); (1%nat, lit "42")]).
  { vm_compute. reflexivity. }
  split; [split; [exact H1 | exact H2]|].
  exact (proj2 (proj1 (proj2 (proj2 (fallback_only_after_primary artist_name)))
                  _ H1 H2)).
Defined.

(** C10.  The primary pattern can capture a title made of whitespace only,
    and then the entry has no title: the key is left out whenever the
    stripped title is empty, although the pattern with a title matched. *)
Theorem blank_title_is_omitted :
  (exists f m, re_match primary_pattern (fst (splitext f)) = Some m
               /\ group m 2 <> [] /\ forallb isspace (group m 2) = true)
  /\ (forall f m, re_match primary_pattern (fst (splitext f)) = Some m ->
        forallb isspace (group m 2) = true ->
        exists e, entry_of f = Some e /\ title e = None)
  /\ (forall f m, re_match primary_pattern (fst (splitext f)) = Some m ->
        strip (group m 2) = [] ->
        exists e, entry_of f = Some e /\ title e = None).
Proof.
  assert (G : forall f m, re_match primary_pattern (fst (splitext f)) = Some m ->
                strip (group m 2) = [] ->
                exists e, entry_of f = Some e /\ title e = None).
  { intros f m H Hs. rewrite entry_of_parse. unfold parse_filename.
    rewrite H. cbn [snd]. rewrite Hs. eexists. split; reflexivity. }
  split; [|split].
  - exists blank_title. eexists. split; [vm_compute; reflexivity|].
    split; [discriminate | reflexivity].
  - intros f m H Hs. apply (G f m H). now apply strip_spaces.
  - exact G.
Qed.

Lemma blank_title_is_omitted_witness :
  re_match primary_pattern (fst (splitext blank_title))
  = Some [(4%nat, lit "1904"); (3%nat, lit "B"); (2%nat, lit " "); (1%nat, lit "1")]
  /\ exists e, entry_of blank_title = Some e /\ title e = None.
Proof.
  assert (H : re_match primary_pattern (fst (splitext blank_title))
              = Some [(4%nat, lit "1904"); (3%nat, lit "B"); (2%nat, lit " ");
                      (1%nat, lit "1")]).
  { vm_compute. reflexivity. }
  split; [exact H|].
  exact (proj1 (proj2 blank_title_is_omitted) blank_title _ H eq_refl).
Defined.

(** C6.  A filename that neither pattern matches makes [parse_filename]
    print the warning that names it and return no number; the loop adds no
    entry for it and goes on: the run returns, the manifest is written, and
    it holds the entry of every image file of the listing that parses. *)
Theorem unparseable_file_is_skipped (images_dir : str) (listing : list str) (f : str) :
  re_match primary_pattern (fst (splitext f)) = None ->
  re_match fallback_pattern (fst (splitext f)) = None ->
  parse_filename f = ([Print (Warning_could_not_parse f)], (None, None, None, None))
  /\ entry_of f = None
  /\ (In f listing -> is_image_file f = true ->
      In (Warning_could_not_parse f)
         (printed (generate_manifest images_dir (Directory listing)))
      /\ snd (generate_manifest images_dir (Directory listing)) = Returned
      /\ exists m,
           dumped (generate_manifest images_dir (Directory listing)) = [m]
           /\ (forall e, In e (images m) -> filename e <> f)
           /\ (forall g e, In g listing -> is_image_file g = true ->
                 entry_of g = Some e -> In e (images m))).
Proof.
  intros H1 H2.
  assert (P : parse_filename f
              = ([Print (Warning_could_not_parse f)], (None, None, None, None))).
  { unfold parse_filename. now rewrite H1, H2. }
  assert (E : entry_of f = None) by (now rewrite entry_of_parse, P).
  split; [exact P|]. split; [exact E|].
  intros Hin Himg. split; [|split].
  - rewrite generate_manifest_directory. unfold printed. cbn [fst].
    rewrite !prints_app. apply in_or_app. right. apply in_or_app. left.
    assert (Hf : In f (processing_order listing)) by (now apply In_processing_order).
    induction (processing_order listing) as [|g files IH]; [destruct Hf|].
    cbn [flat_map]. rewrite prints_app. apply in_or_app.
    destruct Hf as [->|Hf]; [left | right; auto].
    unfold loop_prints, loop_body. rewrite P. simpl. now left.
  - now rewrite generate_manifest_directory.
  - eexists. split; [apply dumped_directory|]. cbn [images]. split.
    + intros e He Hfe. apply In_entries_of in He as (g & _ & Eg).
      pose proof (entry_of_filename _ Eg). congruence.
    + intros g e Hg Hi Eg. apply In_entries_of. exists g.
      split; [now apply In_processing_order | exact Eg].
Qed.

Lemma unparseable_file_is_skipped_witness :
  In (Warning_could_not_parse cover)
     (printed (generate_manifest (lit "images") (Directory [cover; artist_name])))
  /\ snd (generate_manifest (lit "images") (Directory [cover; artist_name])) = Returned
  /\ exists m,
       dumped (generate_manifest (lit "images") (Directory [cover; artist_name])) = [m]
       /\ (forall e, In e (images m) -> filename e <> cover)
       /\ (forall g e, In g [cover; artist_name] -> is_image_file g = true ->
             entry_of g = Some e -> In e (images m)).
Proof.
  assert (H1 : re_match primary_pattern (fst (splitext cover)) = None).
  { vm_compute. reflexivity. }
  assert (H2 : re_match fallback_pattern (fst (splitext cover)) = None).
  { vm_compute. reflexivity. }
  assert (Hin : In cover [cover; artist_name]) by (left; reflexivity).
  assert (Himg : is_image_file cover = true) by (vm_compute; reflexivity).
  exact (proj2 (proj2 (unparseable_file_is_skipped (lit "images")
                         [cover; artist_name] cover H1 H2)) Hin Himg).
Defined.

(** C3, as stated, fails.  In ["1. A by B,19045.jpg"] the primary pattern
    matches and takes 1904 for the year, yet no comma of the name is
    followed by a space, and five digits follow the comma. *)
Lemma year_after_comma_space_counterexample :
  exists m,
    re_match primary_pattern (fst (splitext no_space_year)) = Some m
    /\ group m 4 = lit "1904"
    /\ snd (parse_filename no_space_year)
       = (Some 1, Some (lit "A"), Some (lit "B"), Some 1904)
    /\ ~ year_after_comma_space (fst (splitext no_space_year)) m.
Proof.
  eexists. split; [vm_compute; reflexivity|].
  split; [reflexivity|]. split; [vm_compute; reflexivity|].
  intros (before & after & H & _).
  assert (O : occurs (lit ", ") (fst (splitext no_space_year)) = true).
  { rewrite H. apply occurs_app. }
  vm_compute in O. discriminate.
Qed.

(** C3, amended.  When the primary pattern matches, the year group is the
    four decimal digits that come after a comma and any number of whitespace
    characters, none included; the year is the base-10 value of these four
    digits, from 0 to 9999, whatever follows them. *)
Theorem year_token_shape (f : str) (m : captures) :
  re_match primary_pattern (fst (splitext f)) = Some m ->
  (exists before spaces after,
     fst (splitext f) = before ++ lit "," ++ spaces ++ group m 4 ++ after
     /\ all_of Space spaces)
  /\ all_of Digit (group m 4)
  /\ length (group m 4) = 4%nat
  /\ snd (snd (parse_filename f)) = Some (int (group m 4))
  /\ 0 <= int (group m 4) <= 9999.
Proof.
  intros H. destruct (primary_match_shape _ H) as (p & Hn & Hm & Hp).
  destruct Hp as (_ & _ & _ & _ & _ & _ & _ & _ & _ & _ & _ & Hsp & Hd & Hl).
  assert (G : group m 4 = p_year p) by (now rewrite Hm).
  rewrite G. split; [|split; [exact Hd|split; [exact Hl|split]]].
  - exists (p_number p ++ lit "." ++ p_gap p ++ p_title p ++ p_before_by p
            ++ lit "by" ++ p_after_by p ++ p_artist p), (p_after_comma p), (p_rest p).
    split; [|exact Hsp]. rewrite Hn. repeat (rewrite <- app_assoc; simpl).
    reflexivity.
  - unfold parse_filename. rewrite H. cbn [snd]. now rewrite G.
  - pose proof (int_bounds _ Hd) as B. rewrite Hl in B.
    change (10 ^ Z.of_nat 4) with 10000 in B. lia.
Qed.

Lemma year_token_shape_witness :
  re_match primary_pattern (fst (splitext no_space_year))
  = Some [(4%nat, lit "1904"); (3%nat, lit "B"); (2%nat, lit "A"); (1%nat, lit "1")]
  /\ snd (snd (parse_filename no_space_year)) = Some 1904.
Proof.
  assert (H : re_match primary_pattern (fst (splitext no_space_year))
              = Some [(4%nat, lit "1904"); (3%nat, lit "B"); (2%nat, lit "A");
                      (1%nat, lit "1")]).
  { vm_compute. reflexivity. }
  split; [exact H|].
  exact (proj1 (proj2 (proj2 (proj2 (year_token_shape no_space_year H))))).
Defined.

(** C1, as stated, fails.  In the listing of [1000. Dusk ...jpg],
    [cover.jpg] and the two files [1. Dawn ...png] and [1. Dawn ...jpg], the
    two entries of the files numbered 1 follow each other, so the entries are
    not in strictly ascending order, and [cover.jpg], which has no number,
    is taken before the file numbered 1000. *)
Lemma strict_order_counterexample :
  ~ (forall m,
       In m (dumped (generate_manifest (lit "images") (Directory crowded_listing))) ->
       ordered_by_prefix Z.lt (images m))
  /\ ~ unnumbered_last (processing_order crowded_listing).
Proof.
  split.
  - intros H. rewrite dumped_directory in H. specialize (H _ (or_introl eq_refl)).
    apply ordered_strictly_increasing in H. vm_compute in H. discriminate.
  - intros H.
    assert (E : processing_order crowded_listing
                = [dawn_png; dawn_jpg] ++ cover :: [dusk]) by (vm_compute; reflexivity).
    specialize (H _ _ _ dusk E eq_refl (or_introl eq_refl)).
    vm_compute in H. discriminate.
Qed.

(** C1, amended.  The entries of [images] are those of the files in
    processing order, each from a file with a leading number, and their
    leading numbers never decrease (two entries may share one).  A file
    without a leading number is sorted with the key 999: the numbered files
    before it have numbers up to 999, those after it numbers from 999 on. *)
Theorem images_ordered_by_prefix (images_dir : str) (listing : list str)
    (m : Manifest) :
  In m (dumped (generate_manifest images_dir (Directory listing))) ->
  images m = entries_of (processing_order listing)
  /\ ordered_by_prefix Z.le (images m)
  /\ (forall e, In e (images m) -> numbered (filename e) = true)
  /\ (forall before f after g,
        processing_order listing = before ++ f :: after ->
        numbered f = false -> numbered g = true ->
        (In g before -> leading_number g <= 999)
        /\ (In g after -> 999 <= leading_number g)).
Proof.
  rewrite dumped_directory. intros [<-|[]]. cbn [images].
  split; [reflexivity|]. split; [|split].
  - apply entries_of_ordered, processing_order_sorted.
  - intros e He. apply In_entries_of in He as (g & _ & Eg).
    now apply entry_of_number in Eg as (-> & Hn & _).
  - intros before f after g E Hf Hg.
    pose proof (processing_order_sorted listing) as S. rewrite E in S.
    apply StronglySorted_middle in S as [Sb Sa].
    rewrite Forall_forall in Sb, Sa.
    rewrite (sort_key_unnumbered _ Hf) in Sb, Sa.
    split; intros Hin; [specialize (Sb g Hin) | specialize (Sa g Hin)];
      rewrite (sort_key_numbered _ Hg) in *; exact Sb || exact Sa.
Qed.

Lemma images_ordered_by_prefix_witness :
  exists m,
    In m (dumped (generate_manifest (lit "images") (Directory crowded_listing)))
    /\ map id (images m) = [1; 1; 1000]
    /\ ordered_by_prefix Z.le (images m).
Proof.
  exists (manifest_of crowded_listing).
  assert (H : In (manifest_of crowded_listing)
                 (dumped (generate_manifest (lit "images") (Directory crowded_listing)))).
  { rewrite dumped_directory. left. reflexivity. }
  split; [exact H|]. split; [vm_compute; reflexivity|].
  exact (proj1 (proj2 (images_ordered_by_prefix (lit "images") crowded_listing _ H))).
Defined.

(** C2, as stated, fails.  A listing with [1. Dawn by B, 1900.jpg] and
    [1. Dawn by B, 1900.png] gives two entries with the id 1. *)
Lemma unique_ids_counterexample :
  ~ (forall m,
       In m (dumped (generate_manifest (lit "images") (Directory twin_listing))) ->
       NoDup (map id (images m))).
Proof.
  intros H.
  assert (E : map id (images (manifest_of twin_listing)) = [1; 1])
    by (vm_compute; reflexivity).
  rewrite dumped_directory in H. specialize (H _ (or_introl eq_refl)).
  rewrite E in H. inversion H as [|? ? Hnot _]. apply Hnot. now left.
Qed.

(** C2, amended.  Every entry of a manifest is the one its filename
    determines, and its id is the integer value of the leading digits of
    that filename.  The ids are pairwise distinct when the numbered image
    files of the listing have pairwise distinct leading numbers. *)
Theorem ids_follow_filenames (images_dir : str) (listing : list str) (m : Manifest) :
  In m (dumped (generate_manifest images_dir (Directory listing))) ->
  (forall e, In e (images m) ->
     entry_of (filename e) = Some e /\ id e = leading_number (filename e))
  /\ (NoDup (map leading_number (filter numbered (filter is_image_file listing))) ->
      NoDup (map id (images m))).
Proof.
  rewrite dumped_directory. intros [<-|[]]. cbn [images]. split.
  - intros e He. apply In_entries_of in He as (g & _ & Eg).
    destruct (entry_of_number _ Eg) as (-> & _ & Hid & _). auto.
  - intros H. apply NoDup_ids. unfold processing_order.
    eapply Permutation_NoDup; [|exact H].
    apply filter_numbered_perm. symmetry. apply sort_by_key_perm.
Qed.

Lemma ids_follow_filenames_witness :
  exists m,
    In m (dumped (generate_manifest (lit "images") (Directory [cover; artist_name; the_sun])))
    /\ map id (images m) = [1; 42]
    /\ NoDup (map id (images m)).
Proof.
  exists (manifest_of [cover; artist_name; the_sun]).
  assert (H : In (manifest_of [cover; artist_name; the_sun])
                 (dumped (generate_manifest (lit "images")
                            (Directory [cover; artist_name; the_sun])))).
  { rewrite dumped_directory. left. reflexivity. }
  split; [exact H|]. split; [vm_compute; reflexivity|].
  apply (proj2 (ids_follow_filenames (lit "images") [cover; artist_name; the_sun] _ H)).
  vm_compute. repeat constructor; simpl; intuition discriminate.
Defined.

(** ** Further properties of the program *)

(** *** [strip] *)

Lemma lstrip_idempotent (s : str) : lstrip (lstrip s) = lstrip s.
Proof.
  induction s as [|c s IH]; [reflexivity|].
  simpl. destruct (isspace c) eqn:E; [exact IH|]. simpl. now rewrite E.
Qed.

Lemma lstrip_app_stop (u : str) (c : ascii) (v : str) :
  isspace c = false -> lstrip (u ++ c :: v) = lstrip u ++ c :: v.
Proof.
  intros Hc. induction u as [|x u IH]; simpl.
  - now rewrite Hc.
  - destruct (isspace x); [exact IH | reflexivity].
Qed.

Lemma rstrip_cons_stop (c : ascii) (t : str) :
  isspace c = false -> rstrip (c :: t) = c :: rstrip t.
Proof.
  intros Hc. unfold rstrip. simpl rev.
  rewrite (lstrip_app_stop (rev t) c [] Hc), rev_app_distr. reflexivity.
Qed.

Lemma rstrip_idempotent (s : str) : rstrip (rstrip s) = rstrip s.
Proof. unfold rstrip. now rewrite rev_involutive, lstrip_idempotent. Qed.

Lemma lstrip_rstrip_lstrip (s : str) : lstrip (rstrip (lstrip s)) = rstrip (lstrip s).
Proof.
  induction s as [|c s IH]; [reflexivity|].
  simpl lstrip at 2 3. destruct (isspace c) eqn:E; [exact IH|].
  rewrite rstrip_cons_stop by exact E. simpl. now rewrite E.
Qed.

Lemma strip_trimmed (s : str) : trimmed (strip s).
Proof.
  unfold trimmed, strip. now rewrite lstrip_rstrip_lstrip, rstrip_idempotent.
Qed.

Lemma int_nonneg (s : str) : 0 <= int s.
Proof.
  induction s as [|c s IH] using rev_ind; [unfold int; simpl; lia|].
  rewrite int_snoc. unfold digit_value. lia.
Qed.

Lemma int_four_digits (s : str) :
  all_of Digit s -> length s = 4%nat -> 0 <= int s <= 9999.
Proof.
  intros Hd Hl. pose proof (int_bounds _ Hd) as B. rewrite Hl in B.
  change (10 ^ Z.of_nat 4) with 10000 in B. lia.
Qed.

(** *** The fields of an entry *)

Lemma entry_of_fields (f : str) (e : ImageEntry) :
  entry_of f = Some e ->
  url e = url_base ++ f
  /\ 0 <= id e
  /\ (exists a, artist e = Some a /\ trimmed a)
  /\ (exists y, year e = Some y /\ 0 <= y <= 9999)
  /\ (forall t, title e = Some t -> t <> [] /\ trimmed t).
Proof.
  rewrite entry_of_parse.
  destruct (parse_filename_cases f) as [m p _ Hp|m p _ _ Hp|_ _]; cbn [snd];
    [| |discriminate]; intros [= <-]; cbn [url id artist year title].
  - destruct Hp as (_ & _ & _ & _ & _ & _ & _ & _ & _ & _ & _ & _ & _ & _ & Hd & Hl).
    split; [reflexivity|]. split; [apply int_nonneg|].
    split; [eexists; split; [reflexivity | apply strip_trimmed]|].
    split; [eexists; split; [reflexivity | now apply int_four_digits]|].
    intros t. unfold truthy. destruct (strip (p_title p)) as [|c w] eqn:E;
      [discriminate|].
    intros [= <-]. split; [discriminate|]. rewrite <- E. apply strip_trimmed.
  - destruct Hp as (_ & _ & _ & _ & _ & _ & _ & _ & Hd & Hl).
    split; [reflexivity|]. split; [apply int_nonneg|].
    split; [eexists; split; [reflexivity | apply strip_trimmed]|].
    split; [eexists; split; [reflexivity | now apply int_four_digits]|].
    intros t. discriminate.
Qed.

(** Every entry of a written manifest is well formed: its artist and year
    are present (never [None]), the artist and the title, when there is
    one, have no whitespace at either end, a title is never empty, the year
    is the value of four digits and the id is not negative. *)
Theorem entries_well_formed (images_dir : str) (listing : list str)
    (m : Manifest) (e : ImageEntry) :
  In m (dumped (generate_manifest images_dir (Directory listing))) ->
  In e (images m) ->
  0 <= id e
  /\ (exists a, artist e = Some a /\ trimmed a)
  /\ (exists y, year e = Some y /\ 0 <= y <= 9999)
  /\ (forall t, title e = Some t -> t <> [] /\ trimmed t).
Proof.
  rewrite dumped_directory. intros [<-|[]] He.
  apply In_entries_of in He as (f & _ & Ef).
  apply entry_of_fields in Ef. tauto.
Qed.

Lemma entries_well_formed_witness :
  exists e,
    In e (images (manifest_of [cover; artist_name; the_sun]))
    /\ id e = 42
    /\ (exists a, artist e = Some a /\ trimmed a)
    /\ (exists y, year e = Some y /\ 0 <= y <= 9999).
Proof.
  exists {| id := 42; filename := artist_name; artist := Some (lit "Artist Name");
            year := Some 1872; url := url_base ++ artist_name; title := None |}.
  assert (Hm : In (manifest_of [cover; artist_name; the_sun])
                  (dumped (generate_manifest (lit "images")
                             (Directory [cover; artist_name; the_sun])))).
  { rewrite dumped_directory. left. reflexivity. }
  assert (He : In {| id := 42; filename := artist_name;
                     artist := Some (lit "Artist Name"); year := Some 1872;
                     url := url_base ++ artist_name; title := None |}
                  (images (manifest_of [cover; artist_name; the_sun]))).
  { vm_compute. right. left. reflexivity. }
  split; [exact He|]. split; [reflexivity|].
  pose proof (entries_well_formed _ _ _ _ Hm He) as (_ & Ha & Hy & _).
  split; [exact Ha | exact Hy].
Defined.

(** Every entry comes from a file of the listing that has an image
    extension, its url is the fixed base followed by that filename, and the
    entry is the one that filename determines. *)
Theorem entries_come_from_listing (images_dir : str) (listing : list str)
    (m : Manifest) (e : ImageEntry) :
  In m (dumped (generate_manifest images_dir (Directory listing))) ->
  In e (images m) ->
  In (filename e) listing
  /\ is_image_file (filename e) = true
  /\ url e = url_base ++ filename e
  /\ entry_of (filename e) = Some e.
Proof.
  rewrite dumped_directory. intros [<-|[]] He.
  apply In_entries_of in He as (f & Hf & Ef).
  pose proof (entry_of_filename _ Ef) as ->.
  apply In_processing_order in Hf as [Hl Hi].
  pose proof (entry_of_fields _ Ef) as (Hu & _). auto.
Qed.

Lemma entries_come_from_listing_witness :
  exists e,
    In e (images (manifest_of [cover; artist_name; the_sun]))
    /\ filename e = artist_name
    /\ In (filename e) [cover; artist_name; the_sun]
    /\ url e = url_base ++ filename e.
Proof.
  exists {| id := 42; filename := artist_name; artist := Some (lit "Artist Name");
            year := Some 1872; url := url_base ++ artist_name; title := None |}.
  assert (Hm : In (manifest_of [cover; artist_name; the_sun])
                  (dumped (generate_manifest (lit "images")
                             (Directory [cover; artist_name; the_sun])))).
  { rewrite dumped_directory. left. reflexivity. }
  assert (He : In {| id := 42; filename := artist_name;
                     artist := Some (lit "Artist Name"); year := Some 1872;
                     url := url_base ++ artist_name; title := None |}
                  (images (manifest_of [cover; artist_name; the_sun]))).
  { vm_compute. right. left. reflexivity. }
  split; [exact He|]. split; [reflexivity|].
  pose proof (entries_come_from_listing _ _ _ _ Hm He) as (Hl & _ & Hu & _).
  split; [exact Hl | exact Hu].
Defined.

(** *** What the loop prints *)

Lemma entry_of_None (f : str) :
  entry_of f = None <->
  re_match primary_pattern (fst (splitext f)) = None
  /\ re_match fallback_pattern (fst (splitext f)) = None.
Proof.
  rewrite entry_of_parse. unfold parse_filename.
  destruct (re_match primary_pattern _); cbn [snd].
  - split; [discriminate | intros [? _]; discriminate].
  - destruct (re_match fallback_pattern _); cbn [snd].
    + split; [discriminate | intros [_ ?]; discriminate].
    + tauto.
Qed.

Lemma loop_prints_skipped (f : str) :
  entry_of f = None -> loop_prints f = [Print (Warning_could_not_parse f)].
Proof.
  intros H. apply entry_of_None in H as [H1 H2].
  unfold loop_prints, loop_body, parse_filename. now rewrite H1, H2.
Qed.

Lemma loop_prints_parsed (f : str) (e : ImageEntry) :
  entry_of f = Some e ->
  exists msg, loop_prints f = [Print msg]
              /\ is_progress msg = true /\ is_warning msg = false.
Proof.
  unfold entry_of, loop_prints, loop_body.
  destruct (parse_filename_cases f) as [m p _ _|m p _ _ _|_ _]; cbn;
    [| |discriminate]; intros _.
  - destruct (strip (p_title p)); eexists; repeat split.
  - eexists; repeat split.
Qed.

Lemma In_warning_loop_prints (files : list str) (g : str) :
  In (Warning_could_not_parse g) (prints (flat_map loop_prints files)) <->
  In g files /\ entry_of g = None.
Proof.
  induction files as [|f files IH]; simpl.
  - tauto.
  - rewrite prints_app, in_app_iff, IH.
    destruct (entry_of f) as [e|] eqn:E.
    + destruct (loop_prints_parsed _ E) as (msg & -> & _ & Hw). simpl. split.
      * intros [[Hm|[]]|[Hg Hn]]; [subst msg; discriminate | auto].
      * intros [[->|Hg] Hn]; [congruence | auto].
    + rewrite (loop_prints_skipped _ E). simpl. split.
      * intros [[[= ->]|[]]|[Hg Hn]]; auto.
      * intros [[->|Hg] Hn]; auto.
Qed.

Lemma count_loop_prints (files : list str) :
  (length (filter is_warning (prints (flat_map loop_prints files)))
   + length (entries_of files) = length files)%nat
  /\ length (filter is_progress (prints (flat_map loop_prints files)))
     = length (entries_of files).
Proof.
  induction files as [|f files [IH1 IH2]]; [split; reflexivity|].
  cbn [flat_map]. rewrite prints_app, !filter_app, !length_app, entries_of_cons.
  rewrite length_app. unfold entries_of at 1 3.
  destruct (entry_of f) as [e|] eqn:E.
  - destruct (loop_prints_parsed _ E) as (msg & -> & Hp & Hw).
    cbn [prints flat_map app filter]. rewrite Hp, Hw. simpl. lia.
  - rewrite (loop_prints_skipped _ E). simpl. lia.
Qed.

(** A warning is printed for a filename exactly when it is a file of the
    listing with an image extension that neither pattern matches; files
    with another extension are passed over without a word. *)
Theorem warnings_exactly (images_dir : str) (listing : list str) (g : str) :
  In (Warning_could_not_parse g)
     (printed (generate_manifest images_dir (Directory listing)))
  <-> In g listing /\ is_image_file g = true
      /\ re_match primary_pattern (fst (splitext g)) = None
      /\ re_match fallback_pattern (fst (splitext g)) = None.
Proof.
  rewrite generate_manifest_directory. unfold printed. cbn [fst].
  rewrite !prints_app, !in_app_iff, In_warning_loop_prints, In_processing_order,
    entry_of_None.
  split.
  - intros [H|[H|H]]; [|tauto|].
    + simpl in H. destruct H as [H|[H|[]]]; discriminate.
    + simpl in H. repeat (destruct H as [H|H]; [discriminate|]). destruct H.
  - tauto.
Qed.

Lemma warnings_exactly_witness :
  In (Warning_could_not_parse cover)
     (printed (generate_manifest (lit "images") (Directory [notes; cover; artist_name])))
  /\ ~ In (Warning_could_not_parse notes)
          (printed (generate_manifest (lit "images")
                      (Directory [notes; cover; artist_name]))).
Proof.
  split.
  - apply (proj2 (warnings_exactly (lit "images") [notes; cover; artist_name] cover)).
    vm_compute. auto.
  - intros H.
    apply (proj1 (warnings_exactly (lit "images") [notes; cover; artist_name] notes))
      in H as (_ & Hi & _).
    vm_compute in Hi. discriminate.
Defined.

(** The run accounts for every image file: the first line gives their
    number, each one gives either one entry and one progress line or one
    warning, and the total printed at the end is the number of entries of
    the one manifest written. *)
Theorem every_image_file_accounted (images_dir : str) (listing : list str) :
  let run := generate_manifest images_dir (Directory listing) in
  let n_files := length (filter is_image_file listing) in
  hd_error (printed run) = Some (Found_images (Z.of_nat n_files) images_dir)
  /\ exists m,
       dumped run = [m]
       /\ (length (images m) + length (filter is_warning (printed run)) = n_files)%nat
       /\ length (filter is_progress (printed run)) = length (images m)
       /\ filter (fun msg => match msg with Total_images _ => true | _ => false end)
            (printed run)
          = [Total_images (Z.of_nat (length (images m)))].
Proof.
  intros run n_files. subst run n_files.
  assert (L : length (processing_order listing)
              = length (filter is_image_file listing)).
  { apply Permutation_length, sort_by_key_perm. }
  split.
  - rewrite generate_manifest_directory. unfold printed. cbn. now rewrite L.
  - exists (manifest_of listing). split; [apply dumped_directory|].
    destruct (count_loop_prints (processing_order listing)) as [C1 C2].
    rewrite generate_manifest_directory. unfold printed. cbn [fst images manifest_of].
    rewrite !prints_app, !filter_app, !length_app. rewrite C2, <- L.
    cbn [prints flat_map app filter is_warning is_progress length total_images].
    split; [lia|]. split; [lia|].
    assert (N : forall files,
              filter (fun msg => match msg with Total_images _ => true | _ => false end)
                (prints (flat_map loop_prints files)) = []).
    { induction files as [|f files IH]; [reflexivity|].
      cbn [flat_map]. rewrite prints_app, filter_app, IH, app_nil_r.
      destruct (entry_of f) as [e|] eqn:E.
      - destruct (loop_prints_parsed _ E) as (msg & -> & Hp & _).
        destruct msg; try discriminate; reflexivity.
      - now rewrite (loop_prints_skipped _ E). }
    rewrite N. reflexivity.
Qed.

(** *** The order of the entries *)

Lemma filter_perm (A : Type) (p : A -> bool) (l l' : list A) :
  Permutation l l' -> Permutation (filter p l) (filter p l').
Proof.
  induction 1 as [|x l l' _ IH|x y l|l l' l'' _ IH1 _ IH2]; simpl.
  - reflexivity.
  - destruct (p x); [now constructor | exact IH].
  - destruct (p x), (p y); try reflexivity. apply perm_swap.
  - now rewrite IH1.
Qed.

Lemma filter_sorted (A : Type) (R : A -> A -> Prop) (p : A -> bool) (l : list A) :
  StronglySorted R l -> StronglySorted R (filter p l).
Proof.
  induction 1 as [|x l Hs IH Hall]; simpl; [constructor|].
  destruct (p x); [|exact IH]. constructor; [exact IH|].
  rewrite Forall_forall in *. intros y Hy. apply filter_In in Hy as [Hy _]. auto.
Qed.

Lemma sorted_distinct_strict (A : Type) (key : A -> Z) (l : list A) :
  StronglySorted (fun x y => key x <= key y) l -> NoDup (map key l) ->
  StronglySorted (fun x y => key x < key y) l.
Proof.
  induction 1 as [|x l Hs IH Hall]; simpl; intros Hnd; [constructor|].
  inversion Hnd as [|? ? Hnot Hnd']; subst. constructor; [auto|].
  rewrite Forall_forall in *. intros y Hy. specialize (Hall y Hy).
  assert (key x <> key y) by (intros E; apply Hnot; rewrite E; now apply in_map).
  lia.
Qed.

(** A list has one arrangement in strictly increasing order of the keys. *)
Lemma strictly_sorted_unique (A : Type) (key : A -> Z) (l1 l2 : list A) :
  StronglySorted (fun x y => key x < key y) l1 ->
  StronglySorted (fun x y => key x < key y) l2 ->
  Permutation l1 l2 -> l1 = l2.
Proof.
  intros S1. revert l2. induction S1 as [|x l1 S1 IH H1]; intros l2 S2 P.
  - apply Permutation_nil in P. now subst.
  - destruct S2 as [|y l2 S2 H2]; [apply Permutation_sym, Permutation_nil in P; discriminate|].
    assert (E : x = y).
    { assert (Hx : In x (y :: l2)) by (eapply Permutation_in; [exact P | now left]).
      assert (Hy : In y (x :: l1))
        by (eapply Permutation_in; [symmetry; exact P | now left]).
      destruct Hx as [Hx|Hx]; [now symmetry|].
      destruct Hy as [Hy|Hy]; [exact Hy|].
      rewrite Forall_forall in H1, H2.
      specialize (H1 y Hy). specialize (H2 x Hx). lia. }
    subst y. f_equal. apply IH; [exact S2|].
    eapply Permutation_cons_inv; exact P.
Qed.

Lemma entries_of_numbered (files : list str) :
  entries_of files = entries_of (filter numbered files).
Proof.
  induction files as [|f files IH]; [reflexivity|].
  simpl. destruct (entry_of f) as [e|] eqn:E.
  - destruct (entry_of_number _ E) as (_ & -> & _). simpl. now rewrite E, IH.
  - destruct (numbered f); [simpl; now rewrite E|exact IH].
Qed.

Lemma map_key_numbered (files : list str) :
  map sort_key (filter numbered files) = map leading_number (filter numbered files).
Proof.
  apply map_ext_in. intros f Hf. apply filter_In in Hf as [_ Hn].
  now apply sort_key_numbered.
Qed.

Lemma filter_entries_of (k : Z) (files : list str) :
  filter (fun e => id e =? k) (entries_of files)
  = entries_of (filter (fun f => sort_key f =? k) files).
Proof.
  induction files as [|f files IH]; [reflexivity|].
  simpl. destruct (entry_of f) as [e|] eqn:E.
  - destruct (entry_of_number _ E) as (_ & _ & Hid & Hk).
    simpl. rewrite Hid, Hk.
    destruct (leading_number f =? k); simpl; [now rewrite E, IH | exact IH].
  - destruct (sort_key f =? k); simpl; [now rewrite E | exact IH].
Qed.

(** Entries with the same id stand in the manifest in the order in which
    the listing gives their files: the sort is stable. *)
Theorem equal_ids_keep_listing_order (images_dir : str) (listing : list str)
    (m : Manifest) (k : Z) :
  In m (dumped (generate_manifest images_dir (Directory listing))) ->
  filter (fun e => id e =? k) (images m)
  = entries_of (filter (fun f => sort_key f =? k) (filter is_image_file listing)).
Proof.
  rewrite dumped_directory. intros [<-|[]]. cbn [images manifest_of].
  rewrite filter_entries_of. unfold processing_order.
  now rewrite sort_by_key_stable.
Qed.

Lemma equal_ids_keep_listing_order_witness :
  map filename (filter (fun e => id e =? 1) (images (manifest_of crowded_listing)))
  = [dawn_png; dawn_jpg].
Proof.
  assert (Hm : In (manifest_of crowded_listing)
                  (dumped (generate_manifest (lit "images") (Directory crowded_listing)))).
  { rewrite dumped_directory. left. reflexivity. }
  rewrite (equal_ids_keep_listing_order (lit "images") crowded_listing _ 1 Hm).
  vm_compute. reflexivity.
Defined.

(** When the numbered image files have pairwise distinct leading numbers,
    the manifest does not depend on the order in which the directory is
    listed. *)
Theorem manifest_independent_of_listing_order (images_dir : str)
    (listing listing' : list str) :
  Permutation listing listing' ->
  NoDup (map leading_number (filter numbered (filter is_image_file listing))) ->
  dumped (generate_manifest images_dir (Directory listing))
  = dumped (generate_manifest images_dir (Directory listing')).
Proof.
  intros P Hnd. rewrite !dumped_directory. unfold manifest_of.
  assert (Q : Permutation (filter numbered (processing_order listing))
                          (filter numbered (processing_order listing'))).
  { apply filter_perm. unfold processing_order.
    rewrite !sort_by_key_perm. now apply filter_perm. }
  assert (N : NoDup (map sort_key (filter numbered (processing_order listing)))).
  { rewrite map_key_numbered. eapply Permutation_NoDup; [|exact Hnd].
    apply Permutation_map, filter_perm. symmetry. apply sort_by_key_perm. }
  assert (N' : NoDup (map sort_key (filter numbered (processing_order listing')))).
  { eapply Permutation_NoDup; [|exact N]. now apply Permutation_map. }
  assert (E : filter numbered (processing_order listing)
              = filter numbered (processing_order listing')).
  { apply strictly_sorted_unique with (key := sort_key); [| |exact Q];
      (apply sorted_distinct_strict;
       [apply filter_sorted, processing_order_sorted | assumption]). }
  rewrite (entries_of_numbered (processing_order listing)),
          (entries_of_numbered (processing_order listing')), E.
  reflexivity.
Qed.

Lemma manifest_independent_of_listing_order_witness :
  dumped (generate_manifest (lit "images") (Directory [cover; artist_name; notes; the_sun]))
  = dumped (generate_manifest (lit "images") (Directory [the_sun; notes; cover; artist_name])).
Proof.
  apply manifest_independent_of_listing_order.
  - change (Permutation ([cover; artist_name; notes] ++ the_sun :: [])
                        (the_sun :: [notes; cover; artist_name] ++ [])).
    rewrite <- Permutation_middle. simpl. constructor.
    change (Permutation ([cover; artist_name] ++ notes :: [])
                        (notes :: [cover; artist_name] ++ [])).
    rewrite <- Permutation_middle. reflexivity.
  - vm_compute. repeat constructor; simpl; intuition discriminate.
Defined.

Lemma entries_of_perm (l l' : list str) :
  Permutation l l' -> Permutation (entries_of l) (entries_of l').
Proof.
  induction 1 as [|x l l' _ IH|x y l|l l' l'' _ IH1 _ IH2]; simpl.
  - reflexivity.
  - destruct (entry_of x); [now constructor | exact IH].
  - destruct (entry_of x), (entry_of y); try reflexivity. apply perm_swap.
  - now rewrite IH1.
Qed.

(** Whatever the order of the listing, the manifest holds the same entries,
    each as many times, and so the same total. *)
Theorem same_entries_in_any_listing_order (images_dir : str)
    (listing listing' : list str) (m m' : Manifest) :
  Permutation listing listing' ->
  In m (dumped (generate_manifest images_dir (Directory listing))) ->
  In m' (dumped (generate_manifest images_dir (Directory listing'))) ->
  Permutation (images m) (images m') /\ total_images m = total_images m'.
Proof.
  rewrite !dumped_directory. intros P [<-|[]] [<-|[]]. cbn [images total_images manifest_of].
  assert (Q : Permutation (entries_of (processing_order listing))
                          (entries_of (processing_order listing'))).
  { apply entries_of_perm. unfold processing_order.
    rewrite !sort_by_key_perm. now apply filter_perm. }
  split; [exact Q|]. now rewrite (Permutation_length Q).
Qed.

Lemma same_entries_in_any_listing_order_witness :
  Permutation (images (manifest_of twin_listing))
              (images (manifest_of [dawn_png; dawn_jpg]))
  /\ total_images (manifest_of twin_listing)
     = total_images (manifest_of [dawn_png; dawn_jpg]).
Proof.
  apply (@same_entries_in_any_listing_order (lit "images") twin_listing
           [dawn_png; dawn_jpg]).
  - apply perm_swap.
  - rewrite dumped_directory. left. reflexivity.
  - rewrite dumped_directory. left. reflexivity.
Defined.

(** *** The extension *)

Lemma str_eqb_eq (a b : str) : str_eqb a b = true <-> a = b.
Proof.
  unfold str_eqb. destruct (list_eq_dec ascii_dec a b); split; auto; discriminate.
Qed.

Lemma endswith_iff (s suffix : str) :
  endswith s suffix = true <-> exists base, s = base ++ suffix.
Proof.
  unfold endswith. rewrite andb_true_iff, str_eqb_eq, Nat.leb_le. split.
  - intros [E _]. exists (firstn (length s - length suffix) s).
    rewrite <- E at 2. symmetry. apply firstn_skipn.
  - intros [base ->]. rewrite length_app, Nat.add_sub. split; [|lia].
    rewrite skipn_app, skipn_all, Nat.sub_diag. reflexivity.
Qed.

(** A file is taken for an image exactly when its name ends, in any mix of
    upper and lower case, with [.jpg], [.jpeg] or [.png]. *)
Theorem image_extension_in_any_case (f : str) :
  is_image_file f = true <->
  exists base ext, f = base ++ ext /\ In (lower ext) image_extensions.
Proof.
  unfold is_image_file, endswith_any. fold image_extensions.
  rewrite existsb_exists. split.
  - intros (suffix & Hin & He). apply endswith_iff in He as [b Hb].
    exists (firstn (length b) f), (skipn (length b) f).
    split; [symmetry; apply firstn_skipn|].
    unfold lower in *. rewrite <- skipn_map, Hb, skipn_app, skipn_all, Nat.sub_diag.
    exact Hin.
  - intros (base & ext & -> & Hin). exists (lower ext). split; [exact Hin|].
    apply endswith_iff. exists (lower base). unfold lower. apply map_app.
Qed.

Lemma image_extension_in_any_case_witness :
  is_image_file sun_png = true.
Proof.
  apply (proj2 (image_extension_in_any_case sun_png)).
  exists (lit "1. The Sun by Giuseppe Pellizza da Volpedo, 1904"), (lit ".PNG").
  split; [reflexivity|]. vm_compute. auto.
Defined.

Lemma rfind_from_absent (c : ascii) (s : str) (i found : Z) :
  ~ In c s -> rfind_from c s i found = found.
Proof.
  revert i found. induction s as [|x s IH]; intros i found Hn; [reflexivity|].
  simpl. destruct (Ascii.eqb_spec x c) as [->|_].
  - exfalso. apply Hn. now left.
  - apply IH. intros H. apply Hn. now right.
Qed.

Lemma rfind_from_app (c : ascii) (a b : str) (i found : Z) :
  rfind_from c (a ++ b) i found
  = rfind_from c b (i + Z.of_nat (length a)) (rfind_from c a i found).
Proof.
  revert i found. induction a as [|x a IH]; intros i found.
  - simpl. now rewrite Z.add_0_r.
  - cbn [app rfind_from length]. rewrite IH. f_equal. lia.
Qed.

Lemma rfind_last (c : ascii) (a b : str) :
  ~ In c b -> rfind c (a ++ c :: b) = Z.of_nat (length a).
Proof.
  intros Hn. unfold rfind. rewrite rfind_from_app. cbn [rfind_from].
  rewrite Ascii.eqb_refl. now rewrite rfind_from_absent.
Qed.

Lemma rfind_absent (c : ascii) (s : str) : ~ In c s -> rfind c s = -1.
Proof. apply rfind_from_absent. Qed.

(** For a name without a separator that does not start with a dot, the
    part given to the patterns is what stands before the last dot. *)
Lemma splitext_last_dot (c : ascii) (base ext : str) :
  c <> "."%char -> ~ In "/"%char (c :: base ++ "."%char :: ext) ->
  ~ In "."%char ext ->
  splitext ((c :: base) ++ "."%char :: ext) = (c :: base, "."%char :: ext).
Proof.
  intros Hc Hsep Hdot.
  assert (R1 : rfind "." ((c :: base) ++ "."%char :: ext)
               = Z.of_nat (length (c :: base))) by (now apply rfind_last).
  assert (R2 : rfind "/" ((c :: base) ++ "."%char :: ext) = -1)
    by (apply rfind_absent; exact Hsep).
  unfold splitext. rewrite R1, R2.
  change (-1 <? Z.of_nat (length (c :: base))) with true.
  replace (Z.to_nat (Z.of_nat (length (c :: base)) - (-1 + 1)))
    with (S (length base)) by (simpl length; lia).
  cbn [Z.add Z.to_nat finds_non_dot nth_error app andb Z.opp Z.pos_sub].
  destruct (Ascii.eqb_spec c ".") as [->|_]; [congruence|]. cbn [negb].
  rewrite Nat2Z.id.
  change (c :: base ++ "."%char :: ext) with ((c :: base) ++ "."%char :: ext).
  rewrite firstn_app, firstn_all, Nat.sub_diag, skipn_app, skipn_all, Nat.sub_diag.
  simpl. now rewrite app_nil_r.
Qed.

(** Two files that differ only in the extension after the last dot are
    parsed to the same number, title, artist and year. *)
Theorem extension_does_not_matter (c : ascii) (base ext ext' : str) :
  c <> "."%char ->
  ~ In "/"%char (c :: base ++ ext ++ ext') ->
  ~ In "."%char (ext ++ ext') ->
  fst (splitext ((c :: base) ++ "."%char :: ext)) = c :: base
  /\ snd (parse_filename ((c :: base) ++ "."%char :: ext))
     = snd (parse_filename ((c :: base) ++ "."%char :: ext')).
Proof.
  intros Hc Hsep Hdot.
  assert (S1 : splitext ((c :: base) ++ "."%char :: ext) = (c :: base, "."%char :: ext)).
  { apply splitext_last_dot; [exact Hc| |].
    - intros H. apply Hsep. simpl in *. rewrite !in_app_iff in *. simpl in H.
      destruct H as [H|[H|[H|H]]]; auto; discriminate.
    - intros H. apply Hdot. apply in_or_app. now left. }
  assert (S2 : splitext ((c :: base) ++ "."%char :: ext') = (c :: base, "."%char :: ext')).
  { apply splitext_last_dot; [exact Hc| |].
    - intros H. apply Hsep. simpl in *. rewrite !in_app_iff in *. simpl in H.
      destruct H as [H|[H|[H|H]]]; auto; discriminate.
    - intros H. apply Hdot. apply in_or_app. now right. }
  split; [now rewrite S1|].
  unfold parse_filename. rewrite S1, S2. cbn [fst].
  destruct (re_match primary_pattern _); [reflexivity|].
  destruct (re_match fallback_pattern _); reflexivity.
Qed.

Lemma extension_does_not_matter_witness :
  snd (parse_filename dawn_jpg) = snd (parse_filename dawn_png).
Proof.
  refine (proj2 (extension_does_not_matter (c := "1") (lit ". Dawn by B, 1900")
                   (lit "jpg") (lit "png") _ _ _)).
  - discriminate.
  - vm_compute. intuition discriminate.
  - vm_compute. intuition discriminate.
Defined.

(** *** What a filename must look like *)

(** A filename is parsed only if it starts with digits and a dot, the
    number being the value of these digits, and if its name holds a comma,
    whitespace or none, and four digits, the year being their value. *)
Theorem parsed_names_have_number_dot_and_year (f : str) (number : Z)
    (title artist : option str) (year : option Z) :
  snd (parse_filename f) = (Some number, title, artist, year) ->
  (exists d tail,
     f = d ++ lit "." ++ tail /\ d <> [] /\ all_of Digit d /\ number = int d)
  /\ (exists before spaces y after,
        fst (splitext f) = before ++ lit "," ++ spaces ++ y ++ after
        /\ all_of Space spaces /\ all_of Digit y /\ length y = 4%nat
        /\ year = Some (int y)).
Proof.
  intros H. pose proof (splitext_app f) as S.
  destruct (parse_filename_cases f) as [m p _ Hp|m p _ _ Hp|_ _];
    cbn [snd] in H; [| |discriminate]; injection H as <- _ _ <-.
  - destruct Hp as (Hn & _ & Hd & Hne & _ & _ & _ & _ & _ & _ & _ & _ & _ & Hs & Hy & Hl).
    split.
    + exists (p_number p). eexists. rewrite <- S at 1. rewrite Hn.
      repeat rewrite <- app_assoc. repeat split; eauto.
    + exists (p_number p ++ lit "." ++ p_gap p ++ p_title p ++ p_before_by p
              ++ lit "by" ++ p_after_by p ++ p_artist p),
             (p_after_comma p), (p_year p), (p_rest p).
      repeat split; auto. rewrite Hn. repeat (rewrite <- app_assoc; simpl).
      reflexivity.
  - destruct Hp as (Hn & _ & Hd & Hne & _ & _ & _ & Hs & Hy & Hl).
    split.
    + exists (f_number p). eexists. rewrite <- S at 1. rewrite Hn.
      repeat rewrite <- app_assoc. repeat split; eauto.
    + exists (f_number p ++ lit "." ++ f_gap p ++ f_artist p),
             (f_after_comma p), (f_year p), (f_rest p).
      repeat split; auto. rewrite Hn. repeat (rewrite <- app_assoc; simpl).
      reflexivity.
Qed.

Lemma parsed_names_have_number_dot_and_year_witness :
  exists d tail, artist_name = d ++ lit "." ++ tail /\ d <> [] /\ 42 = int d.
Proof.
  assert (H : snd (parse_filename artist_name)
              = (Some 42, None, Some (lit "Artist Name"), Some 1872)).
  { vm_compute. reflexivity. }
  destruct (proj1 (parsed_names_have_number_dot_and_year artist_name H))
    as (d & tail & Hf & Hne & _ & Hn).
  exists d, tail. auto.
Defined.



(** An image file of the listing whose name does not start with a digit
    gets the warning and no entry. *)
Theorem unnumbered_image_files_are_warned (images_dir : str) (listing : list str)
    (f : str) :
  In f listing -> is_image_file f = true -> numbered f = false ->
  In (Warning_could_not_parse f)
     (printed (generate_manifest images_dir (Directory listing)))
  /\ forall m e,
       In m (dumped (generate_manifest images_dir (Directory listing))) ->
       In e (images m) -> filename e <> f.
Proof.
  intros Hl Hi Hn.
  assert (E : entry_of f = None).
  { destruct (entry_of f) as [e|] eqn:E; [|reflexivity].
    destruct (entry_of_number _ E) as (_ & Hn' & _). congruence. }
  split.
  - rewrite generate_manifest_directory. unfold printed. cbn [fst].
    rewrite !prints_app, !in_app_iff. right. left.
    apply In_warning_loop_prints. split; [|exact E].
    now apply In_processing_order.
  - intros m e Hm He Hf. rewrite dumped_directory in Hm. destruct Hm as [<-|[]].
    apply In_entries_of in He as (g & _ & Eg).
    pose proof (entry_of_filename _ Eg). congruence.
Qed.

Lemma unnumbered_image_files_are_warned_witness :
  In (Warning_could_not_parse cover)
     (printed (generate_manifest (lit "images") (Directory [notes; cover; the_sun]))).
Proof.
  refine (proj1 (unnumbered_image_files_are_warned (lit "images")
                   [notes; cover; the_sun] cover _ _ _)).
  - right. left. reflexivity.
  - vm_compute. reflexivity.
  - vm_compute. reflexivity.
Defined.
